(** * Govardovskii visual-pigment template: a shallow embedding

    The source is [govardovskii.py]: one numeric function,
    [govardovskii_template], and a plotting wrapper, [plot_visual_pigments].

    Numbers.  A NumPy [float64] is modelled by [float64] below: a real number
    or one of the three special values of IEEE arithmetic.  The operations
    follow IEEE on the special values (division by zero yields an infinity or
    NaN and never raises, NaN propagates, [inf - inf] is NaN, ...).  On finite
    values they are the exact operations of the reals: rounding, overflow and
    underflow are not part of the model (so neither is the [OverflowError]
    of Python's [**] on a huge scalar), and zero carries no sign (a zero
    divisor behaves like [+0.0]). *)

From Stdlib Require Import Reals Lra Lia List String Bool Arith Permutation.
Import ListNotations.

Open Scope R_scope.

(** ** Numbers *)

Inductive float64 : Type :=
| Fin (r : R)
| PInf
| NInf
| NaN.

Coercion Fin : R >-> float64.

Declare Scope f64_scope.
Delimit Scope f64_scope with f64.
Bind Scope f64_scope with float64.

(** Sign of a real, decided by the trichotomy of the order. *)
Definition Rsign (r : R) : comparison :=
  match total_order_T r 0 with
  | inleft (left _) => Lt
  | inleft (right _) => Eq
  | inright _ => Gt
  end.

(** [inf * s] for a finite [s] of the given sign; [inf * 0] is NaN. *)
Definition inf_of_sign (c : comparison) : float64 :=
  match c with
  | Gt => PInf
  | Lt => NInf
  | Eq => NaN
  end.

Definition fneg (a : float64) : float64 :=
  match a with
  | Fin r => Fin (- r)
  | PInf => NInf
  | NInf => PInf
  | NaN => NaN
  end.

Definition fadd (a b : float64) : float64 :=
  match a, b with
  | NaN, _ | _, NaN => NaN
  | Fin x, Fin y => Fin (x + y)
  | PInf, NInf | NInf, PInf => NaN
  | PInf, _ | _, PInf => PInf
  | NInf, _ | _, NInf => NInf
  end.

Definition fsub (a b : float64) : float64 := fadd a (fneg b).

Definition fmul (a b : float64) : float64 :=
  match a, b with
  | NaN, _ | _, NaN => NaN
  | Fin x, Fin y => Fin (x * y)
  | Fin x, PInf | PInf, Fin x => inf_of_sign (Rsign x)
  | Fin x, NInf | NInf, Fin x => inf_of_sign (CompOpp (Rsign x))
  | PInf, PInf | NInf, NInf => PInf
  | PInf, NInf | NInf, PInf => NInf
  end.

(** NumPy's true division: a zero divisor gives an infinity of the sign of
    the dividend, [0/0] and [inf/inf] give NaN, and nothing is raised. *)
Definition fdiv (a b : float64) : float64 :=
  match a, b with
  | NaN, _ | _, NaN => NaN
  | Fin x, Fin y =>
      if Req_dec_T y 0 then inf_of_sign (Rsign x) else Fin (x / y)
  | Fin _, (PInf | NInf) => Fin 0
  | PInf, Fin y => if Rlt_dec y 0 then NInf else PInf
  | NInf, Fin y => if Rlt_dec y 0 then PInf else NInf
  | (PInf | NInf), (PInf | NInf) => NaN
  end.

(** [x ** 2]. *)
Definition fsquare (a : float64) : float64 := fmul a a.

(** [np.exp]. *)
Definition np_exp (a : float64) : float64 :=
  match a with
  | Fin r => Fin (exp r)
  | PInf => PInf
  | NInf => Fin 0
  | NaN => NaN
  end.

(** The binary maximum behind [np.max]: NaN wins over everything. *)
Definition fmax (a b : float64) : float64 :=
  match a, b with
  | NaN, _ | _, NaN => NaN
  | PInf, _ | _, PInf => PInf
  | NInf, v | v, NInf => v
  | Fin x, Fin y => Fin (Rmax x y)
  end.

Notation "a + b" := (fadd a b) : f64_scope.
Notation "a - b" := (fsub a b) : f64_scope.
Notation "a * b" := (fmul a b) : f64_scope.
Notation "a / b" := (fdiv a b) : f64_scope.
Notation "- a" := (fneg a) : f64_scope.

Definition is_finite (a : float64) : Prop :=
  match a with Fin _ => True | _ => False end.

Definition is_nan (a : float64) : Prop :=
  match a with NaN => True | _ => False end.

(** [a <= b] as IEEE compares: false as soon as one side is NaN. *)
Definition fle (a b : float64) : Prop :=
  match a, b with
  | NaN, _ | _, NaN => False
  | NInf, _ | _, PInf => True
  | Fin x, Fin y => x <= y
  | _, _ => False
  end.

(** [a > 0]. *)
Definition fpositive (a : float64) : Prop :=
  match a with
  | Fin r => 0 < r
  | PInf => True
  | _ => False
  end.

(** ** Arrays

    A one-dimensional [ndarray] of [float64] is a list.  The source only
    combines arrays that were all derived from [wavelengths], so the shapes
    always agree; scalars are broadcast. *)

Definition ndarray := list float64.

Fixpoint zipw (f : float64 -> float64 -> float64) (a b : ndarray) : ndarray :=
  match a, b with
  | u :: a', v :: b' => f u v :: zipw f a' b'
  | _, _ => []
  end.

(** array (op) array *)
Definition arr_add (a b : ndarray) : ndarray := zipw fadd a b.

(** scalar (op) array and array (op) scalar *)
Definition s_div_arr (s : float64) (a : ndarray) : ndarray := map (fun v => (s / v)%f64) a.
Definition s_sub_arr (s : float64) (a : ndarray) : ndarray := map (fun v => (s - v)%f64) a.
Definition s_mul_arr (s : float64) (a : ndarray) : ndarray := map (fun v => (s * v)%f64) a.
Definition arr_sub_s (a : ndarray) (s : float64) : ndarray := map (fun v => (v - s)%f64) a.
Definition arr_div_s (a : ndarray) (s : float64) : ndarray := map (fun v => (v / s)%f64) a.
Definition arr_add_s (a : ndarray) (s : float64) : ndarray := map (fun v => (v + s)%f64) a.

(** unary *)
Definition arr_neg (a : ndarray) : ndarray := map fneg a.
Definition arr_square (a : ndarray) : ndarray := map fsquare a.
Definition arr_exp (a : ndarray) : ndarray := map np_exp a.

(** [np.asarray] on a sequence of numbers. *)
Definition np_asarray (l : list float64) : ndarray := l.

(** Python exceptions that the modelled code can raise. *)
Inductive exn : Type :=
| ValueError.

Inductive result (A : Type) : Type :=
| Ok (a : A)
| Raise (e : exn).
Arguments Ok {A} a.
Arguments Raise {A} e.

(** [np.max]: the reduction has no identity, an empty array raises
    [ValueError]. *)
Definition np_max (a : ndarray) : result float64 :=
  match a with
  | [] => Raise ValueError
  | v :: t => Ok (fold_left fmax t v)
  end.

(** ** [govardovskii_template]

    One definition per local variable of the source, in the source's order. *)

Section Template.

Variable wavelengths : ndarray.
Variable lambda_max : float64.

Definition x : ndarray := s_div_arr lambda_max wavelengths.

(* A1 template parameters *)
Definition a1 : float64 :=
  (0.8795 + 0.0459 * np_exp (- (fsquare (lambda_max - 300)) / 11940))%f64.
Definition lambda_beta_A1 : float64 := (189 + 0.315 * lambda_max)%f64.
Definition beta_bandwidth_A1 : float64 := (-40.5 + 0.195 * lambda_max)%f64.

(* A1 alpha and beta bands *)
Definition alpha_A1 : ndarray :=
  s_div_arr 1
    (arr_add_s
       (arr_add
          (arr_add (arr_exp (s_mul_arr 69.7 (s_sub_arr a1 x)))
                   (arr_exp (s_mul_arr 28 (s_sub_arr 0.922 x))))
          (arr_exp (s_mul_arr (-14.9) (s_sub_arr 1.104 x))))
       0.674).
Definition beta_A1 : ndarray :=
  s_mul_arr 0.26
    (arr_exp
       (arr_neg
          (arr_square
             (arr_div_s (arr_sub_s wavelengths lambda_beta_A1)
                        beta_bandwidth_A1)))).
Definition sensitivity_A1 : ndarray := arr_add alpha_A1 beta_A1.

(* A2 template parameters *)
Definition a2 : float64 :=
  (0.875 + 0.0268 * np_exp ((lambda_max - 665) / 40.7))%f64.
Definition A2_peak : float64 :=
  (62.7 + 1.834 * np_exp ((lambda_max - 625) / 54.2))%f64.
Definition lambda_beta_A2 : float64 := (216.7 + 0.287 * lambda_max)%f64.
Definition beta_bandwidth_A2 : float64 :=
  (317 - 1.149 * lambda_max + 0.00124 * fsquare lambda_max)%f64.

(* A2 alpha and beta bands *)
Definition alpha_A2 : ndarray :=
  s_div_arr 1
    (arr_add_s
       (arr_add
          (arr_add (arr_exp (s_mul_arr A2_peak (s_sub_arr a2 x)))
                   (arr_exp (s_mul_arr 20.85 (s_sub_arr 0.9101 x))))
          (arr_exp (s_mul_arr (-10.37) (s_sub_arr 1.1123 x))))
       0.5343).
Definition beta_A2 : ndarray :=
  s_mul_arr 0.26
    (arr_exp
       (arr_neg
          (arr_square
             (arr_div_s (arr_sub_s wavelengths lambda_beta_A2)
                        beta_bandwidth_A2)))).
Definition sensitivity_A2 : ndarray := arr_add alpha_A2 beta_A2.

Variable A1_proportion : float64.

(* Combine A1 and A2 templates according to proportion *)
Definition A1_weight : float64 := (A1_proportion / 100)%f64.
Definition A2_weight : float64 := (1 - A1_weight)%f64.
Definition total_sensitivity : ndarray :=
  arr_add (s_mul_arr A1_weight sensitivity_A1)
          (s_mul_arr A2_weight sensitivity_A2).

(* Normalize; the first line of the source, [np.asarray], is applied by
   [govardovskii_template] below before anything else is computed *)
Definition normalized_sensitivity : result ndarray :=
  match np_max total_sensitivity with
  | Raise e => Raise e
  | Ok m => Ok (arr_div_s total_sensitivity m)
  end.

End Template.

Definition govardovskii_template
    (wavelengths : list float64) (lambda_max A1_proportion : float64)
  : result (ndarray * ndarray) :=
  let wavelengths := np_asarray wavelengths in
  match normalized_sensitivity wavelengths lambda_max A1_proportion with
  | Raise e => Raise e
  | Ok normalized => Ok (wavelengths, normalized)
  end.

(** The default of the third parameter, [A1_proportion=100]. *)
Definition govardovskii_template_default
    (wavelengths : list float64) (lambda_max : float64) :=
  govardovskii_template wavelengths lambda_max 100.

(** ** [plot_visual_pigments]

    [matplotlib.pyplot] keeps a process-wide list of figures, the current one
    first.  Only what the source sets is kept of a figure. *)

(** The f-string [f'lambda_max={lambda_max}nm, A1={A1_prop}%'], kept as the two
    numbers it embeds. *)
Record label : Type := mk_label {
  label_lambda_max : float64;
  label_A1 : float64
}.

Record line2d : Type := mk_line {
  xdata : ndarray;
  ydata : ndarray;
  line_label : label
}.

Record figure : Type := mk_figure {
  figsize : R * R;
  lines : list line2d;
  xlabel : string;
  ylabel : string;
  title : string;
  grid_alpha : option R;
  legend : bool;
  ylim : option (R * R)
}.

Definition pyplot := list figure.

Definition new_figure (size : R * R) : figure :=
  mk_figure size [] EmptyString EmptyString EmptyString None false None.

(** matplotlib's default figure size, used when a drawing command finds no
    figure open. *)
Definition default_figsize : R * R := (6.4, 4.8).

Definition plt_figure (size : R * R) (plt : pyplot) : pyplot :=
  new_figure size :: plt.

Definition on_current (f : figure -> figure) (plt : pyplot) : pyplot :=
  match plt with
  | [] => [f (new_figure default_figsize)]
  | fig :: others => f fig :: others
  end.

Definition plt_plot (xs ys : ndarray) (l : label) : pyplot -> pyplot :=
  on_current (fun fig =>
    mk_figure (figsize fig) (lines fig ++ [mk_line xs ys l]) (xlabel fig)
              (ylabel fig) (title fig) (grid_alpha fig) (legend fig) (ylim fig)).

Definition plt_xlabel (s : string) : pyplot -> pyplot :=
  on_current (fun fig =>
    mk_figure (figsize fig) (lines fig) s (ylabel fig) (title fig)
              (grid_alpha fig) (legend fig) (ylim fig)).

Definition plt_ylabel (s : string) : pyplot -> pyplot :=
  on_current (fun fig =>
    mk_figure (figsize fig) (lines fig) (xlabel fig) s (title fig)
              (grid_alpha fig) (legend fig) (ylim fig)).

Definition plt_title (s : string) : pyplot -> pyplot :=
  on_current (fun fig =>
    mk_figure (figsize fig) (lines fig) (xlabel fig) (ylabel fig) s
              (grid_alpha fig) (legend fig) (ylim fig)).

Definition plt_grid (alpha : R) : pyplot -> pyplot :=
  on_current (fun fig =>
    mk_figure (figsize fig) (lines fig) (xlabel fig) (ylabel fig) (title fig)
              (Some alpha) (legend fig) (ylim fig)).

Definition plt_legend : pyplot -> pyplot :=
  on_current (fun fig =>
    mk_figure (figsize fig) (lines fig) (xlabel fig) (ylabel fig) (title fig)
              (grid_alpha fig) true (ylim fig)).

Definition plt_ylim (lo hi : R) : pyplot -> pyplot :=
  on_current (fun fig =>
    mk_figure (figsize fig) (lines fig) (xlabel fig) (ylabel fig) (title fig)
              (grid_alpha fig) (legend fig) (Some (lo, hi))).

(** [np.linspace(start, stop, num)] for [num > 1], end point included:
    [arange(num) * step + start] with the last sample set to [stop]; when the
    step is zero NumPy multiplies in the other order. *)
Definition np_linspace (start stop : float64) (num : nat) : ndarray :=
  let div := Fin (INR (num - 1)) in
  let delta := (stop - start)%f64 in
  let step := (delta / div)%f64 in
  let y := map (fun i => Fin (INR i)) (seq 0 num) in
  let step_is_zero :=
    match step with
    | Fin r => if Req_dec_T r 0 then true else false
    | _ => false
    end in
  let y :=
    if step_is_zero
    then s_mul_arr delta (arr_div_s y div)
    else s_mul_arr step y in
  let y := arr_add_s y start in
  removelast y ++ [stop].

(** [title or 'Visual Pigment Templates']: [None] and the empty string are
    both falsy. *)
Definition title_or_default (t : option string) : string :=
  match t with
  | None | Some EmptyString => "Visual Pigment Templates"%string
  | Some s => s
  end.

(** The [for] loop over [zip(lambda_maxs, A1_proportions)]; an exception of
    the evaluator leaves the loop with the canvas as it is at that point. *)
Fixpoint plot_loop (wavelengths : ndarray) (pairs : list (float64 * float64))
    (plt : pyplot) : result unit * pyplot :=
  match pairs with
  | [] => (Ok tt, plt)
  | (lambda_max, A1_prop) :: rest =>
      match govardovskii_template wavelengths lambda_max A1_prop with
      | Raise e => (Raise e, plt)
      | Ok (_, sensitivity) =>
          let l := mk_label lambda_max A1_prop in
          plot_loop wavelengths rest (plt_plot wavelengths sensitivity l plt)
      end
  end.

Definition plot_visual_pigments
    (wavelength_range : float64 * float64) (lambda_maxs : list float64)
    (A1_proportions : option (list float64)) (title : option string)
    (plt : pyplot) : result unit * pyplot :=
  let wavelengths :=
    np_linspace (fst wavelength_range) (snd wavelength_range) 1000 in
  let A1_proportions :=
    match A1_proportions with
    | None => repeat (Fin 100) (List.length lambda_maxs)
    | Some l => l
    end in
  let plt := plt_figure (10, 6) plt in
  match plot_loop wavelengths (combine lambda_maxs A1_proportions) plt with
  | (Raise e, plt) => (Raise e, plt)
  | (Ok _, plt) =>
      let plt := plt_xlabel "Wavelength (nm)" plt in
      let plt := plt_ylabel "Normalized Sensitivity" plt in
      let plt := plt_title (title_or_default title) plt in
      let plt := plt_grid 0.3 plt in
      let plt := plt_legend plt in
      let plt := plt_ylim 0 1.1 plt in
      (Ok tt, plt)
  end.


(** ** Element-wise view

    Every array of the source is an element-wise function of [wavelengths];
    these are the formulas for one sample [w].  The lemmas [*_pointwise]
    below show that the array code computes exactly them. *)

Section Pointwise.

Variable lambda_max : float64.
Variable w : float64.

Definition x_at : float64 := (lambda_max / w)%f64.

Definition alpha_A1_at : float64 :=
  (1 / (np_exp (69.7 * (a1 lambda_max - x_at))
        + np_exp (28 * (0.922 - x_at))
        + np_exp (-14.9 * (1.104 - x_at))
        + 0.674))%f64.

Definition beta_A1_at : float64 :=
  (0.26 * np_exp (- fsquare ((w - lambda_beta_A1 lambda_max)
                             / beta_bandwidth_A1 lambda_max)))%f64.

Definition sensitivity_A1_at : float64 := (alpha_A1_at + beta_A1_at)%f64.

Definition alpha_A2_at : float64 :=
  (1 / (np_exp (A2_peak lambda_max * (a2 lambda_max - x_at))
        + np_exp (20.85 * (0.9101 - x_at))
        + np_exp (-10.37 * (1.1123 - x_at))
        + 0.5343))%f64.

Definition beta_A2_at : float64 :=
  (0.26 * np_exp (- fsquare ((w - lambda_beta_A2 lambda_max)
                             / beta_bandwidth_A2 lambda_max)))%f64.

Definition sensitivity_A2_at : float64 := (alpha_A2_at + beta_A2_at)%f64.

Definition total_sensitivity_at (A1_proportion : float64) : float64 :=
  (A1_weight A1_proportion * sensitivity_A1_at
   + A2_weight A1_proportion * sensitivity_A2_at)%f64.

End Pointwise.

(** What the normalisation step does to an arbitrary array. *)
Definition normalize (total : ndarray) : result ndarray :=
  match np_max total with
  | Raise e => Raise e
  | Ok m => Ok (arr_div_s total m)
  end.

(** Ranges of values, used to track which special values can occur. *)

(** a number [>= 0], or NaN *)
Definition nonneg_or_nan (v : float64) : Prop :=
  match v with
  | Fin r => 0 <= r
  | NaN => True
  | _ => False
  end.

(** what [np.exp] returns: a number [>= 0], [inf] or NaN *)
Definition exp_like (v : float64) : Prop :=
  match v with
  | Fin r => 0 <= r
  | PInf | NaN => True
  | NInf => False
  end.

(** a number [> 0], [inf] or NaN *)
Definition pos_like (v : float64) : Prop :=
  match v with
  | Fin r => 0 < r
  | PInf | NaN => True
  | NInf => False
  end.

Definition fin_or_nan (v : float64) : Prop :=
  match v with
  | Fin _ | NaN => True
  | _ => False
  end.

(** ** The closed forms of the specification

    The A1 band as the specification writes it, over the reals: one
    definition per formula of its algorithm, steps 1 and 2. *)

Module Spec.

Section A1.
Variable lambda_max : R.
Variable w : R.

Definition x : R := lambda_max / w.
Definition a1 : R := 0.8795 + 0.0459 * exp (- (lambda_max - 300) ^ 2 / 11940).
Definition lambda_beta_A1 : R := 189 + 0.315 * lambda_max.
Definition beta_bandwidth_A1 : R := -40.5 + 0.195 * lambda_max.
Definition alpha1 : R :=
  1 / (exp (69.7 * (a1 - x)) + exp (28 * (0.922 - x))
       + exp (-14.9 * (1.104 - x)) + 0.674).
Definition beta1 : R :=
  0.26 * exp (- ((w - lambda_beta_A1) / beta_bandwidth_A1) ^ 2).
Definition S1 : R := alpha1 + beta1.
End A1.

End Spec.

(** The A2 band on finite inputs, read off the source (the specification
    does not spell its formulas out). *)

Module A2Real.

Section A2.
Variable lambda_max : R.
Variable w : R.

Definition a2 : R := 0.875 + 0.0268 * exp ((lambda_max - 665) / 40.7).
Definition A2_peak : R := 62.7 + 1.834 * exp ((lambda_max - 625) / 54.2).
Definition lambda_beta_A2 : R := 216.7 + 0.287 * lambda_max.
Definition beta_bandwidth_A2 : R :=
  317 - 1.149 * lambda_max + 0.00124 * (lambda_max * lambda_max).
Definition alpha2 : R :=
  1 / (exp (A2_peak * (a2 - lambda_max / w))
       + exp (20.85 * (0.9101 - lambda_max / w))
       + exp (-10.37 * (1.1123 - lambda_max / w)) + 0.5343).
Definition beta2 : R :=
  0.26 * exp (- (((w - lambda_beta_A2) / beta_bandwidth_A2)
                 * ((w - lambda_beta_A2) / beta_bandwidth_A2))).
Definition S2 : R := alpha2 + beta2.
End A2.

End A2Real.

(** The one point where the A1 template is NaN and the A2 template is not:
    a zero A1 bandwidth and a sample sitting exactly on the A1 band centre,
    where the A1 Gaussian is [0/0]. *)
Definition on_degenerate_A1_band (lm w : float64) : Prop :=
  beta_bandwidth_A1 lm = Fin 0 /\ w = lambda_beta_A1 lm.

(** What the function returns when its blended curve is [template]. *)
Definition normalized_template (wavelengths template : ndarray)
  : result (ndarray * ndarray) :=
  match normalize template with
  | Raise e => Raise e
  | Ok c => Ok (wavelengths, c)
  end.

(** Two values agree within [tol]: both are numbers, at most [tol] apart. *)
Definition close_to (tol : R) (a b : float64) : Prop :=
  match a, b with
  | Fin u, Fin v => Rabs (u - v) <= tol
  | _, _ => False
  end.



(** The line that one iteration of the renderer's loop draws. *)
Definition drawn_line (wavelengths : ndarray) (pair : float64 * float64)
  : line2d :=
  let (lambda_max, A1_prop) := pair in
  mk_line wavelengths
    (match govardovskii_template wavelengths lambda_max A1_prop with
     | Ok (_, sensitivity) => sensitivity
     | Raise _ => []
     end)
    (mk_label lambda_max A1_prop).

Definition add_lines (fig : figure) (ls : list line2d) : figure :=
  mk_figure (figsize fig) (lines fig ++ ls) (xlabel fig) (ylabel fig)
            (title fig) (grid_alpha fig) (legend fig) (ylim fig).

(** Rational lower bounds of the exponential, by halving the argument [k]
    times and squaring back: [(1 + y / 2^k) ^ (2^k) <= exp y]. *)
Fixpoint exp_lb (k : nat) (y : R) : R :=
  match k with
  | O => 1 + y
  | S k' => Rsqr (exp_lb k' (y / 2))
  end.

(** A number between [lo] and [hi], or NaN. *)
Definition in_range_or_nan (lo hi : R) (v : float64) : Prop :=
  match v with
  | Fin r => lo <= r <= hi
  | NaN => True
  | _ => False
  end.

(** A number [>= c], [inf] or NaN. *)
Definition at_least (c : R) (v : float64) : Prop :=
  match v with
  | Fin r => c <= r
  | PInf | NaN => True
  | NInf => False
  end.

(** A number in (0, 1]. *)
Definition unit_value (v : float64) : Prop :=
  match v with
  | Fin r => 0 < r <= 1
  | _ => False
  end.

(** A pair (peak wavelength, A1 percentage) as the docstrings describe it:
    both finite, the percentage within 0-100, and the peak wavelength off
    the root of the A1 bandwidth. *)
Definition valid_pigment (pair : float64 * float64) : Prop :=
  match pair with
  | (Fin l, Fin q) => Spec.beta_bandwidth_A1 l <> 0 /\ 0 <= q <= 100
  | _ => False
  end.

(** The script's entry point ([if __name__ == "__main__"]), up to the final
    [plt.show()], which only displays the canvas. *)
Definition main (plt : pyplot) : result unit * pyplot :=
  let wavelength_range := (Fin 300, Fin 800) in
  let lambda_maxs :=
    [Fin 400; Fin 400; Fin 400; Fin 525; Fin 525; Fin 525;
     Fin 650; Fin 650; Fin 650] in
  let A1_proportions :=
    [Fin 100; Fin 50; Fin 0; Fin 100; Fin 50; Fin 0;
     Fin 100; Fin 50; Fin 0] in
  plot_visual_pigments wavelength_range lambda_maxs (Some A1_proportions)
    (Some "Govardovskii Template: A1/A2 Chromophore Mixing"%string) plt.

(** ** Array lemmas *)

Lemma zipw_map (f : float64 -> float64 -> float64) (g h : float64 -> float64)
    (l : ndarray) :
  zipw f (map g l) (map h l) = map (fun v => f (g v) (h v)) l.
Proof.
  induction l as [|v l IH]; simpl; [reflexivity|].
  now rewrite IH.
Qed.

Ltac pointwise :=
  unfold arr_add, s_div_arr, s_sub_arr, s_mul_arr, arr_sub_s, arr_div_s,
    arr_add_s, arr_neg, arr_square, arr_exp;
  repeat (rewrite ?map_map, ?zipw_map).

Lemma x_pointwise W lm : x W lm = map (x_at lm) W.
Proof. reflexivity. Qed.

Lemma alpha_A1_pointwise W lm : alpha_A1 W lm = map (alpha_A1_at lm) W.
Proof. unfold alpha_A1, x. pointwise. reflexivity. Qed.

Lemma beta_A1_pointwise W lm : beta_A1 W lm = map (beta_A1_at lm) W.
Proof. unfold beta_A1. pointwise. reflexivity. Qed.

Lemma sensitivity_A1_pointwise W lm :
  sensitivity_A1 W lm = map (sensitivity_A1_at lm) W.
Proof.
  unfold sensitivity_A1.
  rewrite alpha_A1_pointwise, beta_A1_pointwise.
  pointwise. reflexivity.
Qed.

Lemma alpha_A2_pointwise W lm : alpha_A2 W lm = map (alpha_A2_at lm) W.
Proof. unfold alpha_A2, x. pointwise. reflexivity. Qed.

Lemma beta_A2_pointwise W lm : beta_A2 W lm = map (beta_A2_at lm) W.
Proof. unfold beta_A2. pointwise. reflexivity. Qed.

Lemma sensitivity_A2_pointwise W lm :
  sensitivity_A2 W lm = map (sensitivity_A2_at lm) W.
Proof.
  unfold sensitivity_A2.
  rewrite alpha_A2_pointwise, beta_A2_pointwise.
  pointwise. reflexivity.
Qed.

Lemma total_sensitivity_pointwise W lm p :
  total_sensitivity W lm p = map (fun w => total_sensitivity_at lm w p) W.
Proof.
  unfold total_sensitivity.
  rewrite sensitivity_A1_pointwise, sensitivity_A2_pointwise.
  pointwise. reflexivity.
Qed.

Lemma normalized_sensitivity_normalize W lm p :
  normalized_sensitivity W lm p = normalize (total_sensitivity W lm p).
Proof. reflexivity. Qed.

Lemma govardovskii_template_unfold W lm p :
  govardovskii_template W lm p =
  match normalize (total_sensitivity W lm p) with
  | Raise e => Raise e
  | Ok c => Ok (W, c)
  end.
Proof. reflexivity. Qed.

(** ** Special values: what the operations can return *)

Lemma Rsign_pos r : 0 < r -> Rsign r = Gt.
Proof.
  intros H. unfold Rsign.
  destruct (total_order_T r 0) as [[Hlt|Heq]|Hgt]; try reflexivity; lra.
Qed.

Lemma Rsign_neg r : r < 0 -> Rsign r = Lt.
Proof.
  intros H. unfold Rsign.
  destruct (total_order_T r 0) as [[Hlt|Heq]|Hgt]; try reflexivity; lra.
Qed.

Lemma Rsign_zero : Rsign 0 = Eq.
Proof.
  unfold Rsign.
  destruct (total_order_T 0 0) as [[Hlt|Heq]|Hgt]; try reflexivity; lra.
Qed.

Lemma fdiv_Fin a b : b <> 0 -> (Fin a / Fin b)%f64 = Fin (a / b).
Proof.
  intros Hb. simpl. destruct (Req_dec_T b 0); [contradiction|reflexivity].
Qed.

Lemma fdiv_Fin_zero a : (Fin a / Fin 0)%f64 = inf_of_sign (Rsign a).
Proof.
  simpl. destruct (Req_dec_T 0 0) as [_|H]; [reflexivity|now elim H].
Qed.

Lemma np_exp_like v : exp_like (np_exp v).
Proof.
  destruct v as [r| | |]; simpl; auto.
  - left. apply exp_pos.
  - lra.
Qed.

Lemma fadd_exp_like a b : exp_like a -> exp_like b -> exp_like (a + b)%f64.
Proof.
  destruct a, b; simpl; intros; try tauto; lra.
Qed.

Lemma fadd_pos_like a c : exp_like a -> 0 < c -> pos_like (a + Fin c)%f64.
Proof.
  destruct a; simpl; intros; try tauto; lra.
Qed.

Lemma inv_pos_like a : pos_like a -> nonneg_or_nan (Fin 1 / a)%f64.
Proof.
  destruct a as [r| | |]; simpl; intros H; try tauto; try lra.
  destruct (Req_dec_T r 0) as [E|E]; [lra|].
  simpl. unfold Rdiv. rewrite Rmult_1_l.
  left. now apply Rinv_0_lt_compat.
Qed.

Lemma gaussian_like c z :
  0 <= c -> nonneg_or_nan (Fin c * np_exp (- fsquare z))%f64.
Proof.
  intros Hc. destruct z as [r| | |]; simpl; auto.
  - apply Rmult_le_pos; [assumption|left; apply exp_pos].
  - rewrite Rmult_0_r. lra.
  - rewrite Rmult_0_r. lra.
Qed.

Lemma fadd_nonneg_or_nan a b :
  nonneg_or_nan a -> nonneg_or_nan b -> nonneg_or_nan (a + b)%f64.
Proof.
  destruct a, b; simpl; intros; try tauto; lra.
Qed.

Lemma nonneg_or_nan_fin_or_nan a : nonneg_or_nan a -> fin_or_nan a.
Proof. destruct a; simpl; tauto. Qed.

Lemma sensitivity_A1_at_class lm w : nonneg_or_nan (sensitivity_A1_at lm w).
Proof.
  unfold sensitivity_A1_at. apply fadd_nonneg_or_nan.
  - unfold alpha_A1_at. apply inv_pos_like.
    apply fadd_pos_like; [|lra].
    repeat apply fadd_exp_like; apply np_exp_like.
  - unfold beta_A1_at. apply gaussian_like. lra.
Qed.

Lemma sensitivity_A2_at_class lm w : nonneg_or_nan (sensitivity_A2_at lm w).
Proof.
  unfold sensitivity_A2_at. apply fadd_nonneg_or_nan.
  - unfold alpha_A2_at. apply inv_pos_like.
    apply fadd_pos_like; [|lra].
    repeat apply fadd_exp_like; apply np_exp_like.
  - unfold beta_A2_at. apply gaussian_like. lra.
Qed.

Lemma A1_weight_Fin q : A1_weight (Fin q) = Fin (q / 100).
Proof. unfold A1_weight. apply fdiv_Fin. lra. Qed.

Lemma A2_weight_Fin q : A2_weight (Fin q) = Fin (1 - q / 100).
Proof. unfold A2_weight. rewrite A1_weight_Fin. reflexivity. Qed.

(** The blend is a number or NaN, never an infinity: an infinite proportion
    gives the weights [inf] and [-inf], whose products cancel to NaN. *)
Lemma blend_class p s1 s2 :
  nonneg_or_nan s1 -> nonneg_or_nan s2 ->
  fin_or_nan (A1_weight p * s1 + A2_weight p * s2)%f64.
Proof.
  intros H1 H2. destruct p as [q| | |].
  - rewrite A1_weight_Fin, A2_weight_Fin.
    destruct s1, s2; simpl in *; tauto.
  - unfold A2_weight, A1_weight. simpl.
    destruct (Rlt_dec 100 0) as [H|_]; [lra|]. simpl.
    destruct s1 as [r1| | |], s2 as [r2| | |]; simpl in *; try tauto;
      unfold Rsign;
      try destruct (total_order_T r1 0) as [[?|?]|?];
      try destruct (total_order_T r2 0) as [[?|?]|?];
      simpl; auto; lra.
  - unfold A2_weight, A1_weight. simpl.
    destruct (Rlt_dec 100 0) as [H|_]; [lra|]. simpl.
    destruct s1 as [r1| | |], s2 as [r2| | |]; simpl in *; try tauto;
      unfold Rsign;
      try destruct (total_order_T r1 0) as [[?|?]|?];
      try destruct (total_order_T r2 0) as [[?|?]|?];
      simpl; auto; lra.
  - simpl. destruct s1; exact I.
Qed.

Lemma total_sensitivity_at_class lm w p :
  fin_or_nan (total_sensitivity_at lm w p).
Proof.
  apply blend_class;
    [apply sensitivity_A1_at_class | apply sensitivity_A2_at_class].
Qed.

Lemma total_sensitivity_class W lm p :
  Forall fin_or_nan (total_sensitivity W lm p).
Proof.
  rewrite total_sensitivity_pointwise. apply Forall_map, Forall_forall.
  intros w _. apply total_sensitivity_at_class.
Qed.

(** ** [np.max] *)

Lemma fle_refl a : a <> NaN -> fle a a.
Proof. destruct a; simpl; intros; try tauto; lra. Qed.

Lemma fle_not_nan_l a m : fle a m -> a <> NaN.
Proof. destruct a, m; simpl; intros; try tauto; congruence. Qed.

Lemma fle_not_nan_r a m : fle a m -> m <> NaN.
Proof. destruct a, m; simpl; intros; try tauto; congruence. Qed.

Lemma fmax_choice a b : fmax a b = NaN \/ fmax a b = a \/ fmax a b = b.
Proof.
  destruct a as [u| | |], b as [v| | |]; simpl; auto.
  unfold Rmax. destruct (Rle_dec u v); auto.
Qed.

Lemma fmax_upper a b m : fle (fmax a b) m -> fle a m /\ fle b m.
Proof.
  destruct a as [u| | |], b as [v| | |], m as [q| | |]; simpl; try tauto.
  intros H. pose proof (Rmax_l u v). pose proof (Rmax_r u v). lra.
Qed.

Lemma fmax_least a b m : fle a m -> fle b m -> fle (fmax a b) m.
Proof.
  destruct a as [u| | |], b as [v| | |], m as [q| | |]; simpl; try tauto.
  intros. now apply Rmax_lub.
Qed.

Lemma fmax_absorb_l m v : fle v m -> fmax m v = m.
Proof.
  destruct m as [q| | |], v as [u| | |]; simpl; try tauto.
  intros. now rewrite Rmax_left.
Qed.

Lemma fmax_absorb_r a m : fle a m -> fmax a m = m.
Proof.
  destruct m as [q| | |], a as [u| | |]; simpl; try tauto.
  intros. now rewrite Rmax_right.
Qed.

(** A maximum that is not NaN is an element and bounds every element. *)
Lemma fold_fmax_sound l : forall a,
  fold_left fmax l a <> NaN ->
  In (fold_left fmax l a) (a :: l) /\
  Forall (fun v => fle v (fold_left fmax l a)) (a :: l).
Proof.
  induction l as [|v l IH]; intros a Hm; simpl in *.
  - split; [now left|]. constructor; [now apply fle_refl|constructor].
  - destruct (IH _ Hm) as [Hin Hall].
    inversion Hall as [|? ? Hhead Htail]; subst.
    apply fmax_upper in Hhead. destruct Hhead as [Ha Hv].
    split.
    + destruct Hin as [E|Hin]; [|now right; right].
      destruct (fmax_choice a v) as [F|[F|F]].
      * exfalso. apply Hm. congruence.
      * left. congruence.
      * right; left. congruence.
    + repeat constructor; assumption.
Qed.

(** Conversely, an element that bounds every element is the maximum. *)
Lemma fold_fmax_complete l : forall a m,
  In m (a :: l) -> Forall (fun v => fle v m) (a :: l) ->
  fold_left fmax l a = m.
Proof.
  induction l as [|v l IH]; intros a m Hin Hall; simpl in *.
  - destruct Hin as [E|[]]. exact E.
  - inversion Hall as [|? ? Ha Htail]; subst.
    inversion Htail as [|? ? Hv Hl]; subst.
    apply IH.
    + destruct Hin as [E|[E|Hin]].
      * left. subst. now apply fmax_absorb_l.
      * left. subst. now apply fmax_absorb_r.
      * now right.
    + constructor; [now apply fmax_least|assumption].
Qed.

Lemma np_max_sound a m :
  np_max a = Ok m -> m <> NaN ->
  In m a /\ Forall (fun v => fle v m) a.
Proof.
  destruct a as [|v t]; simpl; [discriminate|].
  intros E Hm. injection E as <-. now apply fold_fmax_sound.
Qed.

Lemma np_max_complete a m :
  In m a -> Forall (fun v => fle v m) a -> np_max a = Ok m.
Proof.
  destruct a as [|v t]; simpl; [tauto|].
  intros. f_equal. now apply fold_fmax_complete.
Qed.

Lemma np_max_nonempty a : a <> [] -> exists m, np_max a = Ok m.
Proof. destruct a; [congruence|]. intros _. simpl. eauto. Qed.

Lemma np_max_empty a : np_max a = Raise ValueError <-> a = [].
Proof. destruct a; simpl; split; congruence. Qed.

Lemma total_sensitivity_length W lm p :
  List.length (total_sensitivity W lm p) = List.length W.
Proof. rewrite total_sensitivity_pointwise. apply length_map. Qed.

(** The function returns for every non-empty array, whatever the two
    scalars are, and raises for the empty one. *)
Lemma govardovskii_template_returns W lm p :
  W <> [] ->
  exists m,
    np_max (total_sensitivity W lm p) = Ok m /\
    govardovskii_template W lm p =
    Ok (W, arr_div_s (total_sensitivity W lm p) m).
Proof.
  intros HW.
  destruct (np_max_nonempty (total_sensitivity W lm p)) as [m Hm].
  - intros E. apply (f_equal (@List.length _)) in E.
    rewrite total_sensitivity_length in E. destruct W; [congruence|discriminate].
  - exists m. split; [exact Hm|].
    rewrite govardovskii_template_unfold. unfold normalize. now rewrite Hm.
Qed.


(** ** Finite inputs: the arrays hold the real closed forms *)

(** Evaluate the operations on finite operands, division apart (its zero
    test needs a proof). *)
Ltac fin_eval := cbn [fsub fadd fneg fmul fsquare np_exp].

Lemma a1_Fin l : a1 (Fin l) = Fin (Spec.a1 l).
Proof.
  unfold a1, Spec.a1. fin_eval. rewrite fdiv_Fin by lra. fin_eval.
  do 4 f_equal. unfold Rminus. field.
Qed.

Lemma lambda_beta_A1_Fin l : lambda_beta_A1 (Fin l) = Fin (Spec.lambda_beta_A1 l).
Proof. reflexivity. Qed.

Lemma beta_bandwidth_A1_Fin l :
  beta_bandwidth_A1 (Fin l) = Fin (Spec.beta_bandwidth_A1 l).
Proof. reflexivity. Qed.

Lemma x_at_Fin l w : w <> 0 -> x_at (Fin l) (Fin w) = Fin (Spec.x l w).
Proof. intros. unfold x_at. now apply fdiv_Fin. Qed.

(** The four-term reciprocal shared by both alpha bands. *)
Lemma alpha_band_Fin A a B b C c D xv :
  0 < D ->
  (1 / (np_exp (Fin A * (Fin a - Fin xv)) + np_exp (Fin B * (Fin b - Fin xv))
        + np_exp (Fin C * (Fin c - Fin xv)) + Fin D))%f64
  = Fin (1 / (exp (A * (a - xv)) + exp (B * (b - xv))
              + exp (C * (c - xv)) + D)).
Proof.
  intros HD. fin_eval. rewrite fdiv_Fin; [reflexivity|].
  pose proof (exp_pos (A * (a + - xv))).
  pose proof (exp_pos (B * (b + - xv))).
  pose proof (exp_pos (C * (c + - xv))).
  lra.
Qed.

(** The Gaussian shared by both beta bands. *)
Lemma beta_band_Fin w lb bw :
  bw <> 0 ->
  (0.26 * np_exp (- fsquare ((Fin w - Fin lb) / Fin bw)))%f64
  = Fin (0.26 * exp (- (((w - lb) / bw) * ((w - lb) / bw)))).
Proof.
  intros Hbw. fin_eval. rewrite fdiv_Fin by assumption. reflexivity.
Qed.

Lemma alpha_A1_at_Fin l w :
  w <> 0 -> alpha_A1_at (Fin l) (Fin w) = Fin (Spec.alpha1 l w).
Proof.
  intros Hw. unfold alpha_A1_at. rewrite a1_Fin, x_at_Fin by assumption.
  rewrite alpha_band_Fin by lra. reflexivity.
Qed.

Lemma beta_A1_at_Fin l w :
  Spec.beta_bandwidth_A1 l <> 0 ->
  beta_A1_at (Fin l) (Fin w) = Fin (Spec.beta1 l w).
Proof.
  intros Hbw. unfold beta_A1_at.
  rewrite lambda_beta_A1_Fin, beta_bandwidth_A1_Fin.
  rewrite beta_band_Fin by assumption.
  unfold Spec.beta1. do 3 f_equal. ring.
Qed.

Lemma sensitivity_A1_at_Fin l w :
  w <> 0 -> Spec.beta_bandwidth_A1 l <> 0 ->
  sensitivity_A1_at (Fin l) (Fin w) = Fin (Spec.S1 l w).
Proof.
  intros Hw Hbw. unfold sensitivity_A1_at.
  rewrite alpha_A1_at_Fin, beta_A1_at_Fin by assumption. reflexivity.
Qed.

Lemma a2_Fin l : a2 (Fin l) = Fin (A2Real.a2 l).
Proof. unfold a2. fin_eval. rewrite fdiv_Fin by lra. reflexivity. Qed.

Lemma A2_peak_Fin l : A2_peak (Fin l) = Fin (A2Real.A2_peak l).
Proof. unfold A2_peak. fin_eval. rewrite fdiv_Fin by lra. reflexivity. Qed.

Lemma beta_bandwidth_A2_Fin l :
  beta_bandwidth_A2 (Fin l) = Fin (A2Real.beta_bandwidth_A2 l).
Proof. reflexivity. Qed.

(** The A2 bandwidth is a quadratic without real root. *)
Lemma beta_bandwidth_A2_pos l : 0 < A2Real.beta_bandwidth_A2 l.
Proof.
  unfold A2Real.beta_bandwidth_A2.
  pose proof (Rle_0_sqr (l - 1149 / 2.48)) as H. unfold Rsqr in H. nra.
Qed.

Lemma alpha_A2_at_Fin l w :
  w <> 0 -> alpha_A2_at (Fin l) (Fin w) = Fin (A2Real.alpha2 l w).
Proof.
  intros Hw. unfold alpha_A2_at.
  rewrite a2_Fin, A2_peak_Fin, x_at_Fin by assumption.
  rewrite alpha_band_Fin by lra. reflexivity.
Qed.

Lemma beta_A2_at_Fin l w : beta_A2_at (Fin l) (Fin w) = Fin (A2Real.beta2 l w).
Proof.
  unfold beta_A2_at. rewrite beta_bandwidth_A2_Fin.
  change (lambda_beta_A2 (Fin l)) with (Fin (A2Real.lambda_beta_A2 l)).
  rewrite beta_band_Fin; [reflexivity|].
  pose proof (beta_bandwidth_A2_pos l). lra.
Qed.

Lemma sensitivity_A2_at_Fin l w :
  w <> 0 -> sensitivity_A2_at (Fin l) (Fin w) = Fin (A2Real.S2 l w).
Proof.
  intros Hw. unfold sensitivity_A2_at.
  rewrite alpha_A2_at_Fin, beta_A2_at_Fin by assumption. reflexivity.
Qed.

Lemma alpha1_pos l w : 0 < Spec.alpha1 l w.
Proof.
  unfold Spec.alpha1.
  pose proof (exp_pos (69.7 * (Spec.a1 l - Spec.x l w))).
  pose proof (exp_pos (28 * (0.922 - Spec.x l w))).
  pose proof (exp_pos (-14.9 * (1.104 - Spec.x l w))).
  apply Rdiv_lt_0_compat; lra.
Qed.

Lemma beta1_pos l w : 0 < Spec.beta1 l w.
Proof.
  unfold Spec.beta1. apply Rmult_lt_0_compat; [lra|apply exp_pos].
Qed.

Lemma S1_pos l w : 0 < Spec.S1 l w.
Proof.
  unfold Spec.S1. pose proof (alpha1_pos l w). pose proof (beta1_pos l w). lra.
Qed.

(** ** Normalisation *)

Lemma fdiv_by_zero_not_finite v : ~ is_finite (v / Fin 0)%f64.
Proof.
  destruct v as [u| | |]; simpl.
  - destruct (Req_dec_T 0 0) as [_|H]; [|now elim H].
    destruct (Rsign u); simpl; tauto.
  - destruct (Rlt_dec 0 0); simpl; tauto.
  - destruct (Rlt_dec 0 0); simpl; tauto.
  - tauto.
Qed.

Lemma fdiv_le_one v r :
  0 < r -> fin_or_nan v -> fle v (Fin r) -> fle (v / Fin r)%f64 (Fin 1).
Proof.
  intros Hr Hc Hle. destruct v as [u| | |]; simpl in *; try tauto.
  destruct (Req_dec_T r 0) as [E|_]; [lra|]. simpl.
  apply Rmult_le_reg_r with r; [assumption|].
  unfold Rdiv. rewrite Rmult_assoc, Rinv_l by lra. lra.
Qed.

Lemma fdiv_self r : r <> 0 -> (Fin r / Fin r)%f64 = Fin 1.
Proof.
  intros Hr. rewrite fdiv_Fin by assumption. f_equal. now field.
Qed.

(** Dividing by a positive maximum: the largest element becomes 1 and
    nothing exceeds it. *)
Lemma arr_div_s_by_max total r :
  0 < r -> In (Fin r) total ->
  Forall (fun v => fle v (Fin r)) total -> Forall fin_or_nan total ->
  np_max (arr_div_s total (Fin r)) = Ok (Fin 1) /\
  Forall (fun v => fle v (Fin 1)) (arr_div_s total (Fin r)).
Proof.
  intros Hr Hin Hle Hc.
  assert (Hall : Forall (fun v => fle v (Fin 1)) (arr_div_s total (Fin r))).
  { unfold arr_div_s. apply Forall_map.
    rewrite Forall_forall in *. intros v Hv.
    apply fdiv_le_one; auto. }
  split; [|exact Hall].
  apply np_max_complete; [|exact Hall].
  unfold arr_div_s. apply in_map_iff. exists (Fin r).
  split; [apply fdiv_self; lra|assumption].
Qed.

Lemma fle_weaken v a b : a <= b -> fle v (Fin a) -> fle v (Fin b).
Proof. destruct v; simpl; intros; try tauto; lra. Qed.

(** A maximum of the blend that is positive is a positive number. *)
Lemma positive_max_is_number W lm p m :
  np_max (total_sensitivity W lm p) = Ok m -> fpositive m ->
  exists r, m = Fin r /\ 0 < r /\
    In (Fin r) (total_sensitivity W lm p) /\
    Forall (fun v => fle v (Fin r)) (total_sensitivity W lm p).
Proof.
  intros Hmax Hpos.
  assert (Hn : m <> NaN) by (intros ->; exact Hpos).
  destruct (np_max_sound _ _ Hmax Hn) as [Hin Hle].
  pose proof (total_sensitivity_class W lm p) as Hc.
  rewrite Forall_forall in Hc. specialize (Hc _ Hin).
  destruct m as [r| | |]; simpl in *; try tauto.
  exists r. auto.
Qed.

Lemma govardovskii_template_with_max W lm p m :
  np_max (total_sensitivity W lm p) = Ok m ->
  govardovskii_template W lm p =
  Ok (W, arr_div_s (total_sensitivity W lm p) m).
Proof.
  intros Hm. rewrite govardovskii_template_unfold. unfold normalize.
  now rewrite Hm.
Qed.

Lemma total_sensitivity_at_Fin l w q :
  w <> 0 -> Spec.beta_bandwidth_A1 l <> 0 ->
  total_sensitivity_at (Fin l) (Fin w) (Fin q) =
  Fin (q / 100 * Spec.S1 l w + (1 - q / 100) * A2Real.S2 l w).
Proof.
  intros Hw Hbw. unfold total_sensitivity_at.
  rewrite A1_weight_Fin, A2_weight_Fin.
  rewrite sensitivity_A1_at_Fin, sensitivity_A2_at_Fin by assumption.
  reflexivity.
Qed.

(** C1.  Whenever the maximum of the blended curve is positive, the function
    returns a curve whose maximum is exactly 1.0 and none of whose values
    exceeds 1.0 (a fortiori 1.0 + eps for every eps >= 0).  A maximum exists
    exactly when the wavelength array is not empty. *)
Theorem normalized_maximum_is_one W lm p m :
  np_max (total_sensitivity W lm p) = Ok m -> fpositive m ->
  exists curve,
    govardovskii_template W lm p = Ok (W, curve) /\
    np_max curve = Ok (Fin 1) /\
    forall eps, 0 <= eps -> Forall (fun v => fle v (Fin (1 + eps))) curve.
Proof.
  intros Hmax Hpos.
  destruct (positive_max_is_number _ _ _ _ Hmax Hpos)
    as (r & -> & Hr & Hin & Hle).
  exists (arr_div_s (total_sensitivity W lm p) (Fin r)).
  destruct (arr_div_s_by_max _ r Hr Hin Hle (total_sensitivity_class W lm p))
    as [Hone Hall].
  split; [now apply govardovskii_template_with_max|].
  split; [exact Hone|].
  intros eps Heps. eapply Forall_impl; [|exact Hall].
  intros v Hv. apply fle_weaken with 1; [lra|exact Hv].
Qed.

Lemma normalized_maximum_is_one_witness :
  exists curve,
    govardovskii_template [Fin 500] 500 100 = Ok ([Fin 500], curve) /\
    np_max curve = Ok (Fin 1) /\
    forall eps, 0 <= eps -> Forall (fun v => fle v (Fin (1 + eps))) curve.
Proof.
  apply (normalized_maximum_is_one [Fin 500] 500 100
           (total_sensitivity_at 500 500 100)).
  - reflexivity.
  - rewrite total_sensitivity_at_Fin.
    + simpl. pose proof (S1_pos 500 500). lra.
    + lra.
    + unfold Spec.beta_bandwidth_A1. lra.
Defined.

(** ** Infinite [x]: a wavelength of zero *)

Lemma fdiv_Fin_by_zero a b : b = 0 -> (Fin a / Fin b)%f64 = inf_of_sign (Rsign a).
Proof. intros ->. apply fdiv_Fin_zero. Qed.

Lemma fmul_Fin_NInf a : 0 < a -> (Fin a * NInf)%f64 = NInf.
Proof. intros H. simpl. now rewrite Rsign_pos. Qed.

Lemma fmul_Fin_NInf_neg a : a < 0 -> (Fin a * NInf)%f64 = PInf.
Proof. intros H. simpl. now rewrite Rsign_neg. Qed.

Lemma fmul_Fin_PInf a : 0 < a -> (Fin a * PInf)%f64 = PInf.
Proof. intros H. simpl. now rewrite Rsign_pos. Qed.

Lemma fmul_Fin_PInf_neg a : a < 0 -> (Fin a * PInf)%f64 = NInf.
Proof. intros H. simpl. now rewrite Rsign_neg. Qed.

(** At [x = inf] the third exponential overflows and the band vanishes. *)
Lemma alpha_band_PInf A a B b C c D :
  0 < A -> 0 < B -> C < 0 ->
  (1 / (np_exp (Fin A * (Fin a - PInf)) + np_exp (Fin B * (Fin b - PInf))
        + np_exp (Fin C * (Fin c - PInf)) + Fin D))%f64 = Fin 0.
Proof.
  intros HA HB HC. cbn [fsub fneg fadd].
  rewrite !fmul_Fin_NInf, fmul_Fin_NInf_neg by assumption.
  reflexivity.
Qed.

Lemma A2_peak_pos l : 0 < A2Real.A2_peak l.
Proof.
  unfold A2Real.A2_peak. pose proof (exp_pos ((l - 625) / 54.2)). lra.
Qed.

Lemma alpha_A1_at_zero_wavelength l :
  0 < l -> alpha_A1_at (Fin l) (Fin 0) = Fin 0.
Proof.
  intros Hl. unfold alpha_A1_at, x_at.
  rewrite fdiv_Fin_zero, Rsign_pos, a1_Fin by assumption.
  apply alpha_band_PInf; lra.
Qed.

Lemma alpha_A2_at_zero_wavelength l :
  0 < l -> alpha_A2_at (Fin l) (Fin 0) = Fin 0.
Proof.
  intros Hl. unfold alpha_A2_at, x_at.
  rewrite fdiv_Fin_zero, Rsign_pos, a2_Fin, A2_peak_Fin by assumption.
  apply alpha_band_PInf; [apply A2_peak_pos|lra|lra].
Qed.

(** With a zero bandwidth every sample off the band centre gets no beta
    band at all. *)
Lemma beta_A1_at_zero_bandwidth l w :
  Spec.beta_bandwidth_A1 l = 0 -> w <> Spec.lambda_beta_A1 l ->
  beta_A1_at (Fin l) (Fin w) = Fin 0.
Proof.
  intros Hbw Hw. unfold beta_A1_at.
  rewrite lambda_beta_A1_Fin, beta_bandwidth_A1_Fin.
  cbn [fsub fneg fadd]. rewrite fdiv_Fin_by_zero by assumption.
  unfold Rsign.
  destruct (total_order_T (w + - Spec.lambda_beta_A1 l) 0) as [[H|H]|H];
    simpl; [f_equal; lra|exfalso; apply Hw; lra|f_equal; lra].
Qed.

(** The degenerate input used below: [lambda_max = 2700/13] makes the A1
    bandwidth [-40.5 + 0.195 * lambda_max] vanish. *)
Lemma beta_bandwidth_A1_root : Spec.beta_bandwidth_A1 (2700 / 13) = 0.
Proof. unfold Spec.beta_bandwidth_A1. lra. Qed.

Lemma total_zero_example :
  total_sensitivity [Fin 0] (Fin (2700 / 13)) 100 = [Fin 0].
Proof.
  rewrite total_sensitivity_pointwise. cbn [map].
  unfold total_sensitivity_at, sensitivity_A1_at, sensitivity_A2_at.
  rewrite A1_weight_Fin, A2_weight_Fin.
  rewrite alpha_A1_at_zero_wavelength, alpha_A2_at_zero_wavelength by lra.
  rewrite beta_A1_at_zero_bandwidth, beta_A2_at_Fin.
  - fin_eval. do 2 f_equal. lra.
  - apply beta_bandwidth_A1_root.
  - unfold Spec.lambda_beta_A1. lra.
Qed.

(** C8.  The normalisation divides by [np.max(total)] without a guard: when
    that maximum is zero the function still returns, and every value of the
    returned curve, being a quotient by zero, is an infinity or NaN. *)
Theorem zero_maximum_not_guarded W lm p :
  np_max (total_sensitivity W lm p) = Ok (Fin 0) ->
  exists curve,
    govardovskii_template W lm p = Ok (W, curve) /\
    curve = arr_div_s (total_sensitivity W lm p) (Fin 0) /\
    curve <> [] /\
    Forall (fun v => ~ is_finite v) curve.
Proof.
  intros Hmax. exists (arr_div_s (total_sensitivity W lm p) (Fin 0)).
  split; [now apply govardovskii_template_with_max|].
  split; [reflexivity|]. split.
  - destruct (total_sensitivity W lm p); [discriminate|]. simpl. congruence.
  - unfold arr_div_s. apply Forall_map, Forall_forall.
    intros v _. apply fdiv_by_zero_not_finite.
Qed.

Lemma zero_maximum_not_guarded_witness :
  np_max (total_sensitivity [Fin 0] (Fin (2700 / 13)) 100) = Ok (Fin 0) /\
  govardovskii_template [Fin 0] (Fin (2700 / 13)) 100 = Ok ([Fin 0], [NaN]).
Proof.
  assert (H : np_max (total_sensitivity [Fin 0] (Fin (2700 / 13)) 100) = Ok (Fin 0))
    by (rewrite total_zero_example; reflexivity).
  split; [exact H|].
  destruct (zero_maximum_not_guarded _ _ _ H) as (curve & -> & -> & _).
  rewrite total_zero_example. unfold arr_div_s. cbn [map].
  rewrite fdiv_Fin_zero, Rsign_zero. reflexivity.
Defined.



(** ** NaN in one template and not in the other *)

Lemma fadd_NaN_r a : (a + NaN)%f64 = NaN.
Proof. now destruct a. Qed.

Lemma fmul_NaN_r a : (a * NaN)%f64 = NaN.
Proof. now destruct a. Qed.

Lemma fdiv_NaN_r a : (a / NaN)%f64 = NaN.
Proof. now destruct a. Qed.

Lemma fsub_NaN_r a : (a - NaN)%f64 = NaN.
Proof. now destruct a. Qed.

(** At [x = -inf] the first two exponentials overflow. *)
Lemma alpha_band_NInf A a B b C c D :
  0 < A -> 0 < B -> C < 0 ->
  (1 / (np_exp (Fin A * (Fin a - NInf)) + np_exp (Fin B * (Fin b - NInf))
        + np_exp (Fin C * (Fin c - NInf)) + Fin D))%f64 = Fin 0.
Proof.
  intros HA HB HC. cbn [fsub fneg fadd].
  rewrite !fmul_Fin_PInf, fmul_Fin_PInf_neg by assumption.
  reflexivity.
Qed.

Lemma alpha_band_number A a B b C c D xv :
  0 < A -> 0 < B -> C < 0 -> 0 < D -> xv <> NaN ->
  exists r,
    (1 / (np_exp (Fin A * (Fin a - xv)) + np_exp (Fin B * (Fin b - xv))
          + np_exp (Fin C * (Fin c - xv)) + Fin D))%f64 = Fin r.
Proof.
  intros HA HB HC HD Hx. destruct xv as [u| | |].
  - rewrite alpha_band_Fin by assumption. eauto.
  - rewrite alpha_band_PInf by assumption. eauto.
  - rewrite alpha_band_NInf by assumption. eauto.
  - congruence.
Qed.

Lemma alpha_band_NaN (A a B b C c D : float64) :
  (1 / (np_exp (A * (a - NaN)) + np_exp (B * (b - NaN))
        + np_exp (C * (c - NaN)) + D))%f64 = NaN.
Proof. rewrite !fsub_NaN_r, !fmul_NaN_r. reflexivity. Qed.

Lemma beta_band_number w lb bw :
  w <> NaN -> bw <> 0 \/ w <> Fin lb ->
  exists r,
    (0.26 * np_exp (- fsquare ((w - Fin lb) / Fin bw)))%f64 = Fin r.
Proof.
  intros Hw Hc. destruct w as [u| | |]; [| | |congruence].
  - destruct (Req_dec_T bw 0) as [E|E].
    + cbn [fsub fneg fadd]. rewrite fdiv_Fin_by_zero by assumption.
      unfold Rsign.
      destruct (total_order_T (u + - lb) 0) as [[H|H]|H]; simpl; eauto.
      exfalso. destruct Hc as [Hc|Hc]; [lra|].
      apply Hc. f_equal. lra.
    + rewrite beta_band_Fin by assumption. eauto.
  - simpl. destruct (Rlt_dec bw 0); simpl; eauto.
  - simpl. destruct (Rlt_dec bw 0); simpl; eauto.
Qed.

Lemma x_at_NaN_l w : x_at NaN w = NaN.
Proof. reflexivity. Qed.

Lemma x_at_NaN_r lm : x_at lm NaN = NaN.
Proof. apply fdiv_NaN_r. Qed.

Lemma sensitivity_A1_at_NaN_x lm w :
  x_at lm w = NaN -> sensitivity_A1_at lm w = NaN.
Proof.
  intros Hx. unfold sensitivity_A1_at, alpha_A1_at. rewrite Hx.
  rewrite alpha_band_NaN. reflexivity.
Qed.

Lemma sensitivity_A2_at_NaN_x lm w :
  x_at lm w = NaN -> sensitivity_A2_at lm w = NaN.
Proof.
  intros Hx. unfold sensitivity_A2_at, alpha_A2_at. rewrite Hx.
  rewrite alpha_band_NaN. reflexivity.
Qed.

(** An infinite [lambda_max] makes both beta bands NaN. *)
Lemma beta_A1_at_infinite lm w : lm = PInf \/ lm = NInf -> beta_A1_at lm w = NaN.
Proof.
  intros [-> | ->]; unfold beta_A1_at, lambda_beta_A1, beta_bandwidth_A1;
    cbn [fmul]; rewrite ?Rsign_pos by lra; cbn [inf_of_sign CompOpp fadd];
    destruct w; reflexivity.
Qed.

Lemma beta_A2_at_infinite lm w : lm = PInf \/ lm = NInf -> beta_A2_at lm w = NaN.
Proof.
  intros [-> | ->]; unfold beta_A2_at, lambda_beta_A2, beta_bandwidth_A2;
    cbn [fmul fsquare fsub fneg]; rewrite ?Rsign_pos by lra;
    cbn [inf_of_sign CompOpp fadd fneg];
    destruct w; reflexivity.
Qed.

Lemma sensitivity_at_infinite lm w :
  lm = PInf \/ lm = NInf ->
  sensitivity_A1_at lm w = NaN /\ sensitivity_A2_at lm w = NaN.
Proof.
  intros H. unfold sensitivity_A1_at, sensitivity_A2_at.
  rewrite beta_A1_at_infinite, beta_A2_at_infinite by assumption.
  now rewrite !fadd_NaN_r.
Qed.

Lemma sensitivity_A2_at_number l w :
  w <> NaN -> x_at (Fin l) w <> NaN ->
  exists r, sensitivity_A2_at (Fin l) w = Fin r.
Proof.
  intros Hw Hx. unfold sensitivity_A2_at, alpha_A2_at, beta_A2_at.
  rewrite a2_Fin, A2_peak_Fin, beta_bandwidth_A2_Fin.
  change (lambda_beta_A2 (Fin l)) with (Fin (A2Real.lambda_beta_A2 l)).
  destruct (alpha_band_number (A2Real.A2_peak l) (A2Real.a2 l) 20.85 0.9101
              (-10.37) 1.1123 0.5343 (x_at (Fin l) w)) as [ra ->];
    try lra; [apply A2_peak_pos|assumption|].
  destruct (beta_band_number w (A2Real.lambda_beta_A2 l)
              (A2Real.beta_bandwidth_A2 l) Hw) as [rb ->].
  - left. pose proof (beta_bandwidth_A2_pos l). lra.
  - simpl. eauto.
Qed.

Lemma sensitivity_A1_at_number l w :
  w <> NaN -> x_at (Fin l) w <> NaN ->
  Spec.beta_bandwidth_A1 l <> 0 \/ w <> Fin (Spec.lambda_beta_A1 l) ->
  exists r, sensitivity_A1_at (Fin l) w = Fin r.
Proof.
  intros Hw Hx Hc. unfold sensitivity_A1_at, alpha_A1_at, beta_A1_at.
  rewrite a1_Fin, lambda_beta_A1_Fin, beta_bandwidth_A1_Fin.
  destruct (alpha_band_number 69.7 (Spec.a1 l) 28 0.922 (-14.9) 1.104 0.674
              (x_at (Fin l) w)) as [ra ->]; try lra; [assumption|].
  destruct (beta_band_number w (Spec.lambda_beta_A1 l)
              (Spec.beta_bandwidth_A1 l) Hw Hc) as [rb ->].
  simpl. eauto.
Qed.

Lemma float64_nan_dec (v : float64) : {v = NaN} + {v <> NaN}.
Proof. destruct v; (now left) || (right; discriminate). Qed.

(** Wherever the A2 template is NaN the A1 template is NaN too. *)
Lemma A2_nan_A1_nan lm w :
  sensitivity_A2_at lm w = NaN -> sensitivity_A1_at lm w = NaN.
Proof.
  intros H2.
  destruct (float64_nan_dec (x_at lm w)) as [Hx|Hx];
    [now apply sensitivity_A1_at_NaN_x|].
  destruct lm as [l| | |].
  - destruct (float64_nan_dec w) as [->|Hw];
      [now rewrite x_at_NaN_r in Hx|].
    destruct (sensitivity_A2_at_number l w Hw Hx) as [r Hr]. congruence.
  - apply sensitivity_at_infinite. now left.
  - apply sensitivity_at_infinite. now right.
  - now apply sensitivity_A1_at_NaN_x.
Qed.

(** The converse fails on the degenerate A1 band only. *)

Lemma A1_nan_A2_nan lm w :
  ~ on_degenerate_A1_band lm w ->
  sensitivity_A1_at lm w = NaN -> sensitivity_A2_at lm w = NaN.
Proof.
  intros Hd H1.
  destruct (float64_nan_dec (x_at lm w)) as [Hx|Hx];
    [now apply sensitivity_A2_at_NaN_x|].
  destruct lm as [l| | |].
  - destruct (float64_nan_dec w) as [->|Hw];
      [now rewrite x_at_NaN_r in Hx|].
    destruct (sensitivity_A1_at_number l w Hw Hx) as [r Hr]; [|congruence].
    destruct (Req_dec_T (Spec.beta_bandwidth_A1 l) 0) as [E|E]; [|now left].
    right. intros ->. apply Hd. split.
    + rewrite beta_bandwidth_A1_Fin. now f_equal.
    + reflexivity.
  - apply sensitivity_at_infinite. now left.
  - apply sensitivity_at_infinite. now right.
  - now apply sensitivity_A2_at_NaN_x.
Qed.

(** ** The blend at the two ends and in between *)

Lemma blend_at_100 s1 s2 :
  fin_or_nan s1 -> fin_or_nan s2 -> (s2 = NaN -> s1 = NaN) ->
  (A1_weight 100 * s1 + A2_weight 100 * s2)%f64 = s1.
Proof.
  intros H1 H2 Hn. rewrite A1_weight_Fin, A2_weight_Fin.
  destruct s2 as [v| | |]; simpl in H2; try tauto.
  - destruct s1 as [u| | |]; simpl in *; try tauto. f_equal. lra.
  - rewrite Hn by reflexivity. reflexivity.
Qed.

Lemma blend_at_0 s1 s2 :
  fin_or_nan s1 -> fin_or_nan s2 -> (s1 = NaN -> s2 = NaN) ->
  (A1_weight 0 * s1 + A2_weight 0 * s2)%f64 = s2.
Proof.
  intros H1 H2 Hn. rewrite A1_weight_Fin, A2_weight_Fin.
  destruct s1 as [u| | |]; simpl in H1; try tauto.
  - destruct s2 as [v| | |]; simpl in *; try tauto. f_equal. lra.
  - rewrite Hn by reflexivity. reflexivity.
Qed.

Lemma total_sensitivity_at_100 lm w :
  total_sensitivity_at lm w 100 = sensitivity_A1_at lm w.
Proof.
  apply blend_at_100.
  - apply nonneg_or_nan_fin_or_nan, sensitivity_A1_at_class.
  - apply nonneg_or_nan_fin_or_nan, sensitivity_A2_at_class.
  - apply A2_nan_A1_nan.
Qed.

Lemma total_sensitivity_at_0 lm w :
  ~ on_degenerate_A1_band lm w ->
  total_sensitivity_at lm w 0 = sensitivity_A2_at lm w.
Proof.
  intros Hd. apply blend_at_0.
  - apply nonneg_or_nan_fin_or_nan, sensitivity_A1_at_class.
  - apply nonneg_or_nan_fin_or_nan, sensitivity_A2_at_class.
  - now apply A1_nan_A2_nan.
Qed.

Lemma total_sensitivity_100 W lm :
  total_sensitivity W lm 100 = sensitivity_A1 W lm.
Proof.
  rewrite total_sensitivity_pointwise, sensitivity_A1_pointwise.
  apply map_ext. intros w. apply total_sensitivity_at_100.
Qed.

Lemma total_sensitivity_0 W lm :
  Forall (fun w => ~ on_degenerate_A1_band lm w) W ->
  total_sensitivity W lm 0 = sensitivity_A2 W lm.
Proof.
  intros H. rewrite total_sensitivity_pointwise, sensitivity_A2_pointwise.
  apply map_ext_in. intros w Hw. rewrite Forall_forall in H.
  apply total_sensitivity_at_0. now apply H.
Qed.

Lemma govardovskii_template_normalized W lm p :
  govardovskii_template W lm p =
  normalized_template W (total_sensitivity W lm p).
Proof. reflexivity. Qed.


Lemma not_degenerate_500 w : ~ on_degenerate_A1_band 500 w.
Proof.
  intros [H _]. rewrite beta_bandwidth_A1_Fin in H.
  injection H. unfold Spec.beta_bandwidth_A1. lra.
Qed.


Lemma S2_pos l w : 0 < A2Real.S2 l w.
Proof.
  unfold A2Real.S2, A2Real.alpha2, A2Real.beta2.
  match goal with
  | |- 0 < 1 / (exp ?a + exp ?b + exp ?c + _) + _ * exp ?d =>
      pose proof (exp_pos a); pose proof (exp_pos b);
      pose proof (exp_pos c); pose proof (exp_pos d)
  end.
  apply Rplus_lt_0_compat.
  - apply Rdiv_lt_0_compat; lra.
  - apply Rmult_lt_0_compat; [lra|assumption].
Qed.




(** ** Blend linearity *)

Lemma blend_combination w s1 s2 :
  fin_or_nan s1 -> fin_or_nan s2 ->
  (A1_weight (Fin (100 * w)) * s1 + A2_weight (Fin (100 * w)) * s2)%f64 =
  (Fin w * (A1_weight 100 * s1 + A2_weight 100 * s2)
   + Fin (1 - w) * (A1_weight 0 * s1 + A2_weight 0 * s2))%f64.
Proof.
  intros H1 H2. rewrite !A1_weight_Fin, !A2_weight_Fin.
  destruct s1 as [u| | |], s2 as [v| | |]; simpl in *; try tauto.
  f_equal. field.
Qed.

(** C2, as the code has it.  Linearity holds for the blended curve before it
    is normalised: the raw curve at proportion [100 * w] is the combination,
    with weights [w] and [1 - w], of the raw curves at proportions 100 and 0,
    and the function returns its normalisation. *)
Theorem blend_linear_before_normalisation W lm (w : R) :
  total_sensitivity W lm (Fin (100 * w)) =
    arr_add (s_mul_arr (Fin w) (total_sensitivity W lm 100))
            (s_mul_arr (Fin (1 - w)) (total_sensitivity W lm 0)) /\
  govardovskii_template W lm (Fin (100 * w)) =
    normalized_template W
      (arr_add (s_mul_arr (Fin w) (total_sensitivity W lm 100))
               (s_mul_arr (Fin (1 - w)) (total_sensitivity W lm 0))).
Proof.
  assert (E : total_sensitivity W lm (Fin (100 * w)) =
              arr_add (s_mul_arr (Fin w) (total_sensitivity W lm 100))
                      (s_mul_arr (Fin (1 - w)) (total_sensitivity W lm 0))).
  { rewrite !total_sensitivity_pointwise. pointwise.
    apply map_ext. intros v. unfold total_sensitivity_at.
    apply blend_combination.
    - apply nonneg_or_nan_fin_or_nan, sensitivity_A1_at_class.
    - apply nonneg_or_nan_fin_or_nan, sensitivity_A2_at_class. }
  split; [exact E|].
  now rewrite govardovskii_template_normalized, E.
Qed.

(** ** The A1 branch against the specification *)

(** C3.  On a finite peak wavelength and finite non-zero wavelengths, with a
    non-zero A1 bandwidth, every array and scalar of the A1 branch holds the
    specification's closed form: [x], [a1], the band centre and bandwidth,
    the alpha band, the beta band (a Gaussian in the wavelength) and their
    sum. *)
Theorem A1_branch_closed_form (l : R) (ws : list R) :
  Forall (fun w => w <> 0) ws -> Spec.beta_bandwidth_A1 l <> 0 ->
  x (map Fin ws) (Fin l) = map (fun w => Fin (Spec.x l w)) ws /\
  a1 (Fin l) = Fin (Spec.a1 l) /\
  lambda_beta_A1 (Fin l) = Fin (Spec.lambda_beta_A1 l) /\
  beta_bandwidth_A1 (Fin l) = Fin (Spec.beta_bandwidth_A1 l) /\
  alpha_A1 (map Fin ws) (Fin l) = map (fun w => Fin (Spec.alpha1 l w)) ws /\
  beta_A1 (map Fin ws) (Fin l) = map (fun w => Fin (Spec.beta1 l w)) ws /\
  sensitivity_A1 (map Fin ws) (Fin l) = map (fun w => Fin (Spec.S1 l w)) ws.
Proof.
  intros Hws Hbw. rewrite Forall_forall in Hws.
  rewrite x_pointwise, alpha_A1_pointwise, beta_A1_pointwise,
    sensitivity_A1_pointwise, !map_map.
  repeat split.
  - apply map_ext_in. intros w Hw. apply x_at_Fin. auto.
  - apply a1_Fin.
  - apply map_ext_in. intros w Hw. apply alpha_A1_at_Fin. auto.
  - apply map_ext_in. intros w Hw. now apply beta_A1_at_Fin.
  - apply map_ext_in. intros w Hw. apply sensitivity_A1_at_Fin; auto.
Qed.

Lemma A1_branch_closed_form_witness :
  sensitivity_A1 [Fin 400; Fin 500; Fin 600] 500 =
  [Fin (Spec.S1 500 400); Fin (Spec.S1 500 500); Fin (Spec.S1 500 600)].
Proof.
  apply (A1_branch_closed_form 500 [400; 500; 600]).
  - repeat constructor; lra.
  - unfold Spec.beta_bandwidth_A1. lra.
Defined.

(** ** Input validation *)



(** ** The renderer *)

Lemma np_linspace_nonempty start stop num : np_linspace start stop num <> [].
Proof.
  unfold np_linspace. intros E. apply app_eq_nil in E.
  destruct E as [_ E]. discriminate E.
Qed.

Lemma add_lines_nil fig : add_lines fig [] = fig.
Proof. destruct fig. unfold add_lines. simpl. now rewrite app_nil_r. Qed.

Lemma add_lines_app fig l1 l2 :
  add_lines (add_lines fig l1) l2 = add_lines fig (l1 ++ l2).
Proof. unfold add_lines. simpl. now rewrite app_assoc. Qed.

(** On a non-empty sample array the loop never raises and draws one line per
    pair, in order. *)
Lemma plot_loop_draws W pairs : W <> [] -> forall fig others,
  plot_loop W pairs (fig :: others) =
  (Ok tt, add_lines fig (map (drawn_line W) pairs) :: others).
Proof.
  intros HW. induction pairs as [|[lm p] pairs IH]; intros fig others.
  - simpl. now rewrite add_lines_nil.
  - cbn [plot_loop map]. unfold drawn_line at 1.
    destruct (govardovskii_template_returns W lm p HW) as (m & _ & ->).
    unfold plt_plot, on_current. fold (add_lines fig
      [mk_line W (arr_div_s (total_sensitivity W lm p) m) (mk_label lm p)]).
    rewrite IH, add_lines_app. reflexivity.
Qed.

Lemma drawn_line_label W pair :
  line_label (drawn_line W pair) = mk_label (fst pair) (snd pair).
Proof. destruct pair. reflexivity. Qed.




(** ** Bounds on the exponential *)

Lemma exp_lb_sound k : forall y,
  0 <= 1 + y / 2 ^ k -> 0 <= exp_lb k y <= exp y.
Proof.
  induction k as [|k IH]; intros y Hy.
  - simpl in *. pose proof (exp_ineq1_le y). lra.
  - cbn [exp_lb]. destruct (IH (y / 2)) as [H0 H1].
    + replace (y / 2 / 2 ^ k) with (y / 2 ^ S k); [exact Hy|].
      simpl. field. apply pow_nonzero. lra.
    + replace (exp y) with (Rsqr (exp (y / 2))).
      * split; [apply Rle_0_sqr|]. now apply Rsqr_incr_1; try lra.
      * unfold Rsqr. rewrite <- exp_plus. f_equal. field.
Qed.

Lemma exp_monotone a b : a <= b -> exp a <= exp b.
Proof.
  intros [H|H]; [left; now apply exp_increasing|right; now rewrite H].
Qed.

(** [c <= exp y], from a rational [y0 <= y]. *)
Lemma exp_ge c k y0 y :
  y0 <= y -> 0 <= 1 + y0 / 2 ^ k -> c <= exp_lb k y0 -> c <= exp y.
Proof.
  intros Hy H0 Hc. pose proof (exp_lb_sound k y0 H0).
  pose proof (exp_monotone y0 y Hy). lra.
Qed.

(** [exp y <= c], from a rational [y <= y0]. *)
Lemma exp_le c k y0 y :
  y <= y0 -> 0 <= 1 + - y0 / 2 ^ k -> 0 < c -> 1 <= c * exp_lb k (- y0) ->
  exp y <= c.
Proof.
  intros Hy H0 Hc H1. pose proof (exp_lb_sound k (- y0) H0) as [HL HU].
  pose proof (exp_monotone y y0 Hy) as Hm.
  pose proof (exp_pos y0) as Hp.
  assert (E : exp y0 * exp (- y0) = 1).
  { rewrite <- exp_plus. replace (y0 + - y0) with 0 by ring. apply exp_0. }
  assert (exp y0 <= c); [|lra].
  assert (Hc1 : 1 <= c * exp (- y0)).
  { apply Rle_trans with (c * exp_lb k (- y0)); [assumption|].
    apply Rmult_le_compat_l; lra. }
  replace c with (exp y0 * exp (- y0) * c) by (rewrite E; ring).
  rewrite Rmult_assoc. rewrite <- (Rmult_1_r (exp y0)) at 1.
  apply Rmult_le_compat_l; lra.
Qed.

Ltac exp_lb_compute := cbn [exp_lb pow]; unfold Rsqr; lra.


Lemma recip_le d c : 0 < c -> 1 <= c * d -> 1 / d <= c.
Proof.
  intros Hc H. assert (Hd : 0 < d) by nra.
  apply Rmult_le_reg_r with d; [assumption|].
  unfold Rdiv. rewrite Rmult_assoc, Rinv_l by lra. lra.
Qed.

Lemma recip_ge d c : 0 < d -> c * d <= 1 -> c <= 1 / d.
Proof.
  intros Hd H. apply Rmult_le_reg_r with d; [assumption|].
  unfold Rdiv. rewrite Rmult_assoc, Rinv_l by lra. lra.
Qed.

Lemma exp_nonpos_le_1 y : y <= 0 -> exp y <= 1.
Proof. intros H. rewrite <- exp_0. now apply exp_monotone. Qed.

Lemma a1_bounds l : 0.8795 < Spec.a1 l <= 0.9254.
Proof.
  unfold Spec.a1.
  pose proof (exp_pos (- (l - 300) ^ 2 / 11940)).
  assert (exp (- (l - 300) ^ 2 / 11940) <= 1); [|lra].
  apply exp_nonpos_le_1. pose proof (pow2_ge_0 (l - 300)). lra.
Qed.

Lemma a2_500_bounds : 0.875 < A2Real.a2 500 <= 0.9018.
Proof.
  unfold A2Real.a2. pose proof (exp_pos ((500 - 665) / 40.7)).
  assert (exp ((500 - 665) / 40.7) <= 1); [apply exp_nonpos_le_1|]; lra.
Qed.

Lemma A2_peak_500_bounds : 62.7 < A2Real.A2_peak 500 <= 64.534.
Proof.
  unfold A2Real.A2_peak. pose proof (exp_pos ((500 - 625) / 54.2)).
  assert (exp ((500 - 625) / 54.2) <= 1); [apply exp_nonpos_le_1|]; lra.
Qed.

(** *** The A1 template for [lambda_max = 500] *)

Ltac unfold_S1 :=
  unfold Spec.S1, Spec.alpha1, Spec.beta1, Spec.x, Spec.lambda_beta_A1,
    Spec.beta_bandwidth_A1.

Lemma S1_500_at_500 : 0.64 <= Spec.S1 500 500.
Proof.
  pose proof (a1_bounds 500) as Ha. unfold_S1.
  assert (E1 : exp (69.7 * (Spec.a1 500 - 500 / 500)) <= 0.162)
    by (apply (exp_le _ 0 (-5.19)); [lra|exp_lb_compute|lra|exp_lb_compute]).
  assert (E2 : exp (28 * (0.922 - 500 / 500)) <= 0.315)
    by (apply (exp_le _ 0 (-2.184)); [lra|exp_lb_compute|lra|exp_lb_compute]).
  assert (E3 : exp (-14.9 * (1.104 - 500 / 500)) <= 0.393)
    by (apply (exp_le _ 0 (-1.5496)); [lra|exp_lb_compute|lra|exp_lb_compute]).
  match goal with |- _ <= 1 / (exp ?a + exp ?b + exp ?c + _) + _ * exp ?d =>
    pose proof (exp_pos a); pose proof (exp_pos b); pose proof (exp_pos c);
    pose proof (exp_pos d);
    assert (0.64 <= 1 / (exp a + exp b + exp c + 0.674))
      by (apply recip_ge; lra)
  end.
  lra.
Qed.

Lemma S1_500_at_400 : Spec.S1 500 400 <= 0.231.
Proof.
  unfold_S1.
  assert (E3 : 7.68 <= exp (-14.9 * (1.104 - 500 / 400)))
    by (apply (exp_ge _ 4 2.1754); [lra|exp_lb_compute|exp_lb_compute]).
  assert (B : exp (- ((400 - (189 + 0.315 * 500)) / (-40.5 + 0.195 * 500)) ^ 2)
              <= 0.425)
    by (apply (exp_le _ 4 (-0.88)); [lra|exp_lb_compute|lra|exp_lb_compute]).
  match goal with |- 1 / (exp ?a + exp ?b + exp ?c + _) + _ <= _ =>
    pose proof (exp_pos a); pose proof (exp_pos b);
    assert (1 / (exp a + exp b + exp c + 0.674) <= 0.12)
      by (apply recip_le; lra)
  end.
  lra.
Qed.

Lemma S1_500_at_600 : Spec.S1 500 600 <= 0.39.
Proof.
  pose proof (a1_bounds 500) as Ha. unfold_S1.
  assert (E1 : 4.2 <= exp (69.7 * (Spec.a1 500 - 500 / 600)))
    by (apply (exp_ge _ 0 3.2); [lra|exp_lb_compute|exp_lb_compute]).
  assert (E2 : 3.4 <= exp (28 * (0.922 - 500 / 600)))
    by (apply (exp_ge _ 0 2.4); [lra|exp_lb_compute|exp_lb_compute]).
  assert (B : exp (- ((600 - (189 + 0.315 * 500)) / (-40.5 + 0.195 * 500)) ^ 2)
              <= 1)
    by (apply exp_nonpos_le_1;
        match goal with |- - ?z ^ 2 <= 0 => pose proof (pow2_ge_0 z); lra end).
  match goal with |- 1 / (exp ?a + exp ?b + exp ?c + _) + _ <= _ =>
    pose proof (exp_pos c);
    assert (1 / (exp a + exp b + exp c + 0.674) <= 0.125)
      by (apply recip_le; lra)
  end.
  lra.
Qed.

Lemma S1_500_at_350 : 0.259 <= Spec.S1 500 350.
Proof.
  pose proof (alpha1_pos 500 350) as Ha. unfold Spec.S1.
  assert (0.259 <= Spec.beta1 500 350); [|lra].
  unfold Spec.beta1, Spec.lambda_beta_A1, Spec.beta_bandwidth_A1.
  assert (B : 0.9962 <=
              exp (- ((350 - (189 + 0.315 * 500)) / (-40.5 + 0.195 * 500)) ^ 2))
    by (apply (exp_ge _ 0 (-0.0038)); [lra|exp_lb_compute|exp_lb_compute]).
  lra.
Qed.

Lemma S1_500_at_band_centre : 0.26 < Spec.S1 500 346.5.
Proof.
  pose proof (alpha1_pos 500 346.5) as Ha. unfold Spec.S1.
  assert (Spec.beta1 500 346.5 = 0.26); [|lra].
  unfold Spec.beta1, Spec.lambda_beta_A1, Spec.beta_bandwidth_A1.
  replace (- ((346.5 - (189 + 0.315 * 500)) / (-40.5 + 0.195 * 500)) ^ 2)
    with 0 by lra.
  rewrite exp_0. lra.
Qed.

Lemma S1_500_at_650 : Spec.S1 500 650 <= 0.13.
Proof.
  pose proof (a1_bounds 500) as Ha. unfold_S1.
  assert (E1 : 8.6 <= exp (69.7 * (Spec.a1 500 - 500 / 650)))
    by (apply (exp_ge _ 0 7.6); [lra|exp_lb_compute|exp_lb_compute]).
  assert (B : exp (- ((650 - (189 + 0.315 * 500)) / (-40.5 + 0.195 * 500)) ^ 2)
              <= 0.04)
    by (apply (exp_le _ 0 (-28)); [lra|exp_lb_compute|lra|exp_lb_compute]).
  match goal with |- 1 / (exp ?a + exp ?b + exp ?c + _) + _ <= _ =>
    pose proof (exp_pos b); pose proof (exp_pos c);
    assert (1 / (exp a + exp b + exp c + 0.674) <= 0.11)
      by (apply recip_le; lra)
  end.
  lra.
Qed.

(** *** The A2 template for [lambda_max = 500] *)

Ltac unfold_S2 :=
  unfold A2Real.S2, A2Real.alpha2, A2Real.beta2, A2Real.lambda_beta_A2,
    A2Real.beta_bandwidth_A2.

Lemma S2_500_at_350 : A2Real.S2 500 350 <= 0.301.
Proof.
  unfold_S2.
  assert (E3 : 19.7 <= exp (-10.37 * (1.1123 - 500 / 350)))
    by (apply (exp_ge _ 4 3.2796); [lra|exp_lb_compute|exp_lb_compute]).
  match goal with |- _ + 0.26 * exp ?d <= _ =>
    assert (B : exp d <= 0.964)
      by (apply (exp_le _ 0 (-0.0377)); [lra|exp_lb_compute|lra|exp_lb_compute])
  end.
  match goal with |- 1 / (exp ?a + exp ?b + exp ?c + _) + _ <= _ =>
    pose proof (exp_pos a); pose proof (exp_pos b);
    assert (1 / (exp a + exp b + exp c + 0.5343) <= 0.05)
      by (apply recip_le; lra)
  end.
  lra.
Qed.

Lemma S2_500_at_400 : 0.337 <= A2Real.S2 500 400.
Proof.
  pose proof a2_500_bounds as Ha. pose proof A2_peak_500_bounds as Hp.
  unfold_S2.
  assert (E1 : exp (A2Real.A2_peak 500 * (A2Real.a2 500 - 500 / 400)) <= 0.046)
    by (apply (exp_le _ 0 (-21)); [nra|exp_lb_compute|lra|exp_lb_compute]).
  assert (E2 : exp (20.85 * (0.9101 - 500 / 400)) <= 0.125)
    by (apply (exp_le _ 0 (-7)); [lra|exp_lb_compute|lra|exp_lb_compute]).
  assert (E3 : exp (-10.37 * (1.1123 - 500 / 400)) <= 4.465)
    by (apply (exp_le _ 4 1.427949); [lra|exp_lb_compute|lra|exp_lb_compute]).
  match goal with |- _ <= _ + 0.26 * exp ?d =>
    assert (B : 0.5565 <= exp d)
      by (apply (exp_ge _ 4 (-0.57471)); [lra|exp_lb_compute|exp_lb_compute])
  end.
  match goal with |- _ <= 1 / (exp ?a + exp ?b + exp ?c + _) + _ =>
    pose proof (exp_pos a); pose proof (exp_pos b); pose proof (exp_pos c);
    assert (0.193 <= 1 / (exp a + exp b + exp c + 0.5343))
      by (apply recip_ge; lra)
  end.
  lra.
Qed.

(** ** Curves on finite samples *)

Lemma sensitivity_A1_Fin_list l ws :
  Forall (fun w => w <> 0) ws -> Spec.beta_bandwidth_A1 l <> 0 ->
  sensitivity_A1 (map Fin ws) (Fin l) = map (fun w => Fin (Spec.S1 l w)) ws.
Proof.
  intros Hws Hbw. rewrite Forall_forall in Hws.
  rewrite sensitivity_A1_pointwise, map_map.
  apply map_ext_in. intros w Hw. apply sensitivity_A1_at_Fin; auto.
Qed.

Lemma sensitivity_A2_Fin_list l ws :
  Forall (fun w => w <> 0) ws ->
  sensitivity_A2 (map Fin ws) (Fin l) = map (fun w => Fin (A2Real.S2 l w)) ws.
Proof.
  intros Hws. rewrite Forall_forall in Hws.
  rewrite sensitivity_A2_pointwise, map_map.
  apply map_ext_in. intros w Hw. apply sensitivity_A2_at_Fin; auto.
Qed.

Lemma arr_div_s_Fin_list rs r :
  r <> 0 -> arr_div_s (map Fin rs) (Fin r) = map (fun s => Fin (s / r)) rs.
Proof.
  intros Hr. unfold arr_div_s. rewrite map_map.
  apply map_ext. intros s. now apply fdiv_Fin.
Qed.

(** Normalising numbers whose largest one, [r], is positive. *)
Lemma normalize_Fin_list rs r :
  In r rs -> 0 < r -> Forall (fun s => s <= r) rs ->
  normalize (map Fin rs) = Ok (map (fun s => Fin (s / r)) rs).
Proof.
  intros Hin Hr Hle. unfold normalize.
  rewrite (np_max_complete (map Fin rs) (Fin r)).
  - rewrite arr_div_s_Fin_list by lra. reflexivity.
  - now apply in_map.
  - apply Forall_map. eapply Forall_impl; [|exact Hle]. now simpl.
Qed.

Lemma np_max_Fin_list rs :
  rs <> [] -> exists r, np_max (map Fin rs) = Ok (Fin r).
Proof.
  destruct rs as [|a rs]; [congruence|]. intros _. simpl.
  revert a. induction rs as [|b rs IH]; intros a; simpl; eauto.
Qed.

Lemma div_le_of_mul a b c : 0 < b -> a <= c * b -> a / b <= c.
Proof.
  intros Hb H. apply Rmult_le_reg_r with b; [assumption|].
  unfold Rdiv. rewrite Rmult_assoc, Rinv_l by lra. lra.
Qed.

Lemma div_eq_one a b : b <> 0 -> (a / b = 1 <-> a = b).
Proof.
  intros Hb. split; intros H.
  - apply (f_equal (fun t => t * b)) in H. unfold Rdiv in H.
    rewrite Rmult_assoc, Rinv_l in H by assumption. lra.
  - subst. now field.
Qed.

(** ** Where the maximum sits *)

Lemma peak_example :
  exists c0 c2,
    govardovskii_template [Fin 400; Fin 500; Fin 600] 500 100
    = Ok ([Fin 400; Fin 500; Fin 600], [Fin c0; Fin 1; Fin c2]) /\
    c0 < 1 /\ c2 < 1.
Proof.
  pose proof S1_500_at_400 as H4. pose proof S1_500_at_500 as H5.
  pose proof S1_500_at_600 as H6.
  exists (Spec.S1 500 400 / Spec.S1 500 500),
         (Spec.S1 500 600 / Spec.S1 500 500).
  split; [|split].
  - change [Fin 400; Fin 500; Fin 600] with (map Fin [400; 500; 600]).
    rewrite govardovskii_template_normalized, total_sensitivity_100.
    rewrite (sensitivity_A1_Fin_list 500 [400; 500; 600]).
    + unfold normalized_template.
      rewrite <- (map_map (Spec.S1 500) Fin).
      rewrite (normalize_Fin_list _ (Spec.S1 500 500)).
      * cbn [map]. do 4 f_equal. f_equal. field. lra.
      * simpl. tauto.
      * lra.
      * repeat constructor; lra.
    + repeat constructor; lra.
    + unfold Spec.beta_bandwidth_A1. lra.
  - apply Rlt_le_trans with 0.9; [|lra]. 
    assert (Spec.S1 500 400 / Spec.S1 500 500 <= 0.5); [|lra].
    apply div_le_of_mul; lra.
  - assert (Spec.S1 500 600 / Spec.S1 500 500 <= 0.7); [|lra].
    apply div_le_of_mul; lra.
Qed.

(** C4 fails as stated.  For [lambda_max = 500] and the samples 346.5 and
    650, the sample nearest the peak wavelength is 650, but the returned
    maximum 1.0 sits at 346.5 and the value at 650 is below 1. *)
Lemma peak_not_at_nearest_sample :
  exists v,
    govardovskii_template [Fin 346.5; Fin 650] 500 100
    = Ok ([Fin 346.5; Fin 650], [Fin 1; Fin v]) /\
    v < 1 /\
    Rabs (650 - 500) < Rabs (346.5 - 500).
Proof.
  pose proof S1_500_at_band_centre as Ha. pose proof S1_500_at_650 as Hb.
  pose proof (S1_pos 500 650) as Hp.
  exists (Spec.S1 500 650 / Spec.S1 500 346.5).
  split; [|split].
  - change [Fin 346.5; Fin 650] with (map Fin [346.5; 650]).
    rewrite govardovskii_template_normalized, total_sensitivity_100.
    rewrite (sensitivity_A1_Fin_list 500 [346.5; 650]).
    + unfold normalized_template.
      rewrite <- (map_map (Spec.S1 500) Fin).
      rewrite (normalize_Fin_list _ (Spec.S1 500 346.5)).
      * cbn [map]. do 3 f_equal. f_equal. field. lra.
      * simpl. tauto.
      * lra.
      * repeat constructor; lra.
    + repeat constructor; lra.
    + unfold Spec.beta_bandwidth_A1. lra.
  - assert (Spec.S1 500 650 / Spec.S1 500 346.5 <= 0.5); [|lra].
    apply div_le_of_mul; lra.
  - rewrite Rabs_pos_eq by lra. rewrite Rabs_left by lra. lra.
Qed.

(** C4, as the code has it.  For a peak wavelength in (300, 800), proportion
    100 and a non-empty array of finite non-zero wavelengths, the returned
    curve has maximum exactly 1.0, attained exactly at the samples where the
    raw A1 template is largest.  For the samples 400, 500, 600 and peak 500
    the value at 500 is exactly 1.0 and the two others are smaller. *)
Theorem peak_at_raw_maximum :
  (forall l ws,
     300 < l < 800 -> ws <> [] -> Forall (fun w => w <> 0) ws ->
     exists curve,
       govardovskii_template (map Fin ws) (Fin l) 100
       = Ok (map Fin ws, curve) /\
       np_max curve = Ok (Fin 1) /\
       forall i w, nth_error ws i = Some w ->
         (nth_error curve i = Some (Fin 1) <->
          forall w', In w' ws -> Spec.S1 l w' <= Spec.S1 l w)) /\
  (exists c0 c2,
     govardovskii_template [Fin 400; Fin 500; Fin 600] 500 100
     = Ok ([Fin 400; Fin 500; Fin 600], [Fin c0; Fin 1; Fin c2]) /\
     c0 < 1 /\ c2 < 1).
Proof.
  split; [|exact peak_example].
  intros l ws Hl Hne Hws.
  assert (Hbw : Spec.beta_bandwidth_A1 l <> 0)
    by (unfold Spec.beta_bandwidth_A1; lra).
  destruct (np_max_Fin_list (map (Spec.S1 l) ws)) as [r Hmax].
  { destruct ws; [congruence|discriminate]. }
  destruct (np_max_sound _ _ Hmax) as [Hin Hle]; [discriminate|].
  rewrite map_map in Hin, Hle.
  apply in_map_iff in Hin. destruct Hin as (w0 & E0 & Hw0).
  injection E0 as E0.
  assert (Hr : 0 < r) by (rewrite <- E0; apply S1_pos).
  assert (Hall : forall w', In w' ws -> Spec.S1 l w' <= r).
  { rewrite Forall_map, Forall_forall in Hle. exact Hle. }
  exists (map (fun w => Fin (Spec.S1 l w / r)) ws).
  split; [|split].
  - rewrite govardovskii_template_normalized, total_sensitivity_100.
    rewrite sensitivity_A1_Fin_list by assumption.
    unfold normalized_template.
    rewrite <- (map_map (Spec.S1 l) Fin).
    rewrite (normalize_Fin_list _ r).
    + now rewrite map_map.
    + rewrite <- E0. now apply in_map.
    + assumption.
    + apply Forall_map, Forall_forall. exact Hall.
  - apply np_max_complete.
    + apply in_map_iff. exists w0. split; [|assumption].
      f_equal. rewrite E0. field. lra.
    + apply Forall_map, Forall_forall. intros w' Hw'. simpl.
      apply div_le_of_mul; [assumption|]. specialize (Hall _ Hw'). lra.
  - intros i w Hi. rewrite nth_error_map, Hi. simpl.
    assert (Hw : In w ws) by (eapply nth_error_In; eassumption).
    split.
    + intros E. injection E as E.
      apply (proj1 (div_eq_one _ r (Rgt_not_eq _ _ Hr))) in E.
      intros w' Hw'. rewrite E. now apply Hall.
    + intros Hmaxw. do 2 f_equal. apply div_eq_one; [lra|].
      apply Rle_antisym; [now apply Hall|].
      rewrite <- E0. now apply Hmaxw.
Qed.

Lemma peak_at_raw_maximum_witness :
  exists curve,
    govardovskii_template (map Fin [400; 500; 600]) (Fin 500) 100
    = Ok (map Fin [400; 500; 600], curve) /\
    np_max curve = Ok (Fin 1).
Proof.
  destruct peak_at_raw_maximum as [H _].
  destruct (H 500 [400; 500; 600]) as (curve & Hc & Hm & _).
  - lra.
  - discriminate.
  - repeat constructor; lra.
  - exists curve. split; assumption.
Defined.

(** ** Combining returned curves *)

Lemma total_sensitivity_Fin_list l ws q :
  Forall (fun w => w <> 0) ws -> Spec.beta_bandwidth_A1 l <> 0 ->
  total_sensitivity (map Fin ws) (Fin l) (Fin q) =
  map Fin (map (fun w => q / 100 * Spec.S1 l w
                         + (1 - q / 100) * A2Real.S2 l w) ws).
Proof.
  intros Hws Hbw. rewrite Forall_forall in Hws.
  rewrite total_sensitivity_pointwise, !map_map.
  apply map_ext_in. intros w Hw. apply total_sensitivity_at_Fin; auto.
Qed.

Ltac forall_lra := repeat (apply Forall_cons; [lra|]); apply Forall_nil.

Lemma not_close_below tol u :
  0 <= tol -> u < 1 - tol -> ~ close_to tol (Fin u) (Fin 1).
Proof.
  intros Ht Hu H. simpl in H.
  rewrite Rabs_left in H by lra. lra.
Qed.

(** C2 fails as stated.  For [lambda_max = 500], the samples 350 and 400 and
    the weight 1/2: the A1 curve peaks at 350 and the A2 curve at 400, so
    both values of the half-and-half combination of the two returned curves
    stay below 0.95, while the curve returned at proportion 50 contains 1.0.
    The two differ by more than 1/100 at that sample. *)
Lemma blend_of_returned_curves_counterexample :
  exists c100 c0 c50,
    govardovskii_template [Fin 350; Fin 400] 500 100
      = Ok ([Fin 350; Fin 400], c100) /\
    govardovskii_template [Fin 350; Fin 400] 500 0
      = Ok ([Fin 350; Fin 400], c0) /\
    govardovskii_template [Fin 350; Fin 400] 500 50
      = Ok ([Fin 350; Fin 400], c50) /\
    ~ Forall2 (close_to (1 / 100))
        (arr_add (s_mul_arr (Fin (1 / 2)) c100)
                 (s_mul_arr (Fin (1 - 1 / 2)) c0))
        c50.
Proof.
  pose proof S1_500_at_350 as H1a. pose proof S1_500_at_400 as H1b.
  pose proof S2_500_at_350 as H2a. pose proof S2_500_at_400 as H2b.
  pose proof (S1_pos 500 400) as P1b. pose proof (S2_pos 500 350) as P2a.
  assert (Hnz : Forall (fun w => w <> 0) [350; 400])
    by (forall_lra).
  assert (Hbw : Spec.beta_bandwidth_A1 500 <> 0)
    by (unfold Spec.beta_bandwidth_A1; lra).
  assert (R1 : Spec.S1 500 400 / Spec.S1 500 350 <= 0.9)
    by (apply div_le_of_mul; lra).
  assert (R2 : A2Real.S2 500 350 / A2Real.S2 500 400 <= 0.9)
    by (apply div_le_of_mul; lra).
  assert (D1 : Spec.S1 500 350 / Spec.S1 500 350 = 1) by (field; lra).
  assert (D2 : A2Real.S2 500 400 / A2Real.S2 500 400 = 1) by (field; lra).
  (* the curve at 100 *)
  assert (C100 : govardovskii_template [Fin 350; Fin 400] 500 100 =
                 Ok ([Fin 350; Fin 400],
                     map (fun s => Fin (s / Spec.S1 500 350))
                         (map (Spec.S1 500) [350; 400]))).
  { change [Fin 350; Fin 400] with (map Fin [350; 400]).
    rewrite govardovskii_template_normalized, total_sensitivity_100.
    rewrite sensitivity_A1_Fin_list by assumption.
    unfold normalized_template. rewrite <- (map_map (Spec.S1 500) Fin).
    rewrite (normalize_Fin_list _ (Spec.S1 500 350)); [reflexivity| | |].
    - simpl. tauto.
    - lra.
    - forall_lra. }
  (* the curve at 0 *)
  assert (C0 : govardovskii_template [Fin 350; Fin 400] 500 0 =
               Ok ([Fin 350; Fin 400],
                   map (fun s => Fin (s / A2Real.S2 500 400))
                       (map (A2Real.S2 500) [350; 400]))).
  { change [Fin 350; Fin 400] with (map Fin [350; 400]).
    rewrite govardovskii_template_normalized, total_sensitivity_0.
    - rewrite sensitivity_A2_Fin_list by assumption.
      unfold normalized_template. rewrite <- (map_map (A2Real.S2 500) Fin).
      rewrite (normalize_Fin_list _ (A2Real.S2 500 400)); [reflexivity| | |].
      + simpl. tauto.
      + lra.
      + forall_lra.
    - apply Forall_forall. intros w _. apply not_degenerate_500. }
  (* the curve at 50, whichever of its two samples is the larger *)
  set (ta := 50 / 100 * Spec.S1 500 350 + (1 - 50 / 100) * A2Real.S2 500 350).
  set (tb := 50 / 100 * Spec.S1 500 400 + (1 - 50 / 100) * A2Real.S2 500 400).
  assert (Pa : 0 < ta) by (unfold ta; lra).
  assert (Pb : 0 < tb) by (unfold tb; lra).
  assert (C50 : forall r, In r [ta; tb] -> Forall (fun s => s <= r) [ta; tb] ->
                govardovskii_template [Fin 350; Fin 400] 500 50 =
                Ok ([Fin 350; Fin 400], map (fun s => Fin (s / r)) [ta; tb])).
  { intros r Hin Hle.
    change [Fin 350; Fin 400] with (map Fin [350; 400]).
    rewrite govardovskii_template_normalized.
    rewrite total_sensitivity_Fin_list by assumption.
    unfold normalized_template. cbn [map]. fold ta. fold tb.
    change [Fin ta; Fin tb] with (map Fin [ta; tb]).
    rewrite (normalize_Fin_list _ r); [reflexivity|assumption| |assumption].
    destruct Hin as [<-|[<-|[]]]; assumption. }
  destruct (Rle_dec ta tb) as [Hab|Hab].
  - (* the maximum is at 400 *)
    do 3 eexists. split; [exact C100|]. split; [exact C0|].
    split; [apply (C50 tb); [simpl; tauto|forall_lra]|].
    cbn [map arr_add s_mul_arr zipw fmul fadd].
    intros F. inversion F as [|? ? ? ? _ F']; subst.
    inversion F' as [|? ? ? ? Hc _]; subst.
    replace (tb / tb) with 1 in Hc by (field; lra).
    revert Hc. apply not_close_below; lra.
  - (* the maximum is at 350 *)
    do 3 eexists. split; [exact C100|]. split; [exact C0|].
    split; [apply (C50 ta); [simpl; tauto|forall_lra]|].
    cbn [map arr_add s_mul_arr zipw fmul fadd].
    intros F. inversion F as [|? ? ? ? Hc _]; subst.
    replace (ta / ta) with 1 in Hc by (field; lra).
    revert Hc. apply not_close_below; lra.
Qed.

(** ** Ranges of the raw templates *)

Lemma fadd_at_least a c : exp_like a -> at_least c (a + Fin c)%f64.
Proof. destruct a; simpl; intros; try tauto; lra. Qed.

Lemma inv_at_least c a :
  0 < c -> at_least c a -> in_range_or_nan 0 (1 / c) (Fin 1 / a)%f64.
Proof.
  intros Hc. destruct a as [r| | |]; simpl; intros H; try tauto.
  - destruct (Req_dec_T r 0) as [E|E]; [lra|]. simpl. split.
    + left. apply Rdiv_lt_0_compat; lra.
    + unfold Rdiv. rewrite !Rmult_1_l. apply Rinv_le_contravar; lra.
  - split; [lra|]. left. apply Rdiv_lt_0_compat; lra.
Qed.

Lemma gaussian_range c z :
  0 <= c -> in_range_or_nan 0 c (Fin c * np_exp (- fsquare z))%f64.
Proof.
  intros Hc.
  assert (Hexp : forall r, 0 <= c * exp (- (r * r)) <= c).
  { intros r. pose proof (exp_pos (- (r * r))).
    assert (exp (- (r * r)) <= 1) by (apply exp_nonpos_le_1; nra). nra. }
  destruct z as [r| | |]; simpl; auto; rewrite Rmult_0_r; lra.
Qed.

Lemma fadd_in_range a b ha hb :
  in_range_or_nan 0 ha a -> in_range_or_nan 0 hb b ->
  in_range_or_nan 0 (ha + hb) (a + b)%f64.
Proof. destruct a, b; simpl; intros; try tauto; lra. Qed.

Lemma sensitivity_A1_at_range lm w :
  in_range_or_nan 0 (1 / 0.674 + 0.26) (sensitivity_A1_at lm w).
Proof.
  unfold sensitivity_A1_at. apply fadd_in_range.
  - unfold alpha_A1_at. apply inv_at_least; [lra|].
    apply fadd_at_least.
    repeat apply fadd_exp_like; apply np_exp_like.
  - unfold beta_A1_at. apply gaussian_range. lra.
Qed.

Lemma sensitivity_A2_at_range lm w :
  in_range_or_nan 0 (1 / 0.5343 + 0.26) (sensitivity_A2_at lm w).
Proof.
  unfold sensitivity_A2_at. apply fadd_in_range.
  - unfold alpha_A2_at. apply inv_at_least; [lra|].
    apply fadd_at_least.
    repeat apply fadd_exp_like; apply np_exp_like.
  - unfold beta_A2_at. apply gaussian_range. lra.
Qed.

(** X1.  Whatever the wavelengths and the peak wavelength are (zero,
    negative, infinite or NaN included), every value of the raw A1 template is
    NaN or a number between 0 and 1/0.674 + 0.26, every value of the raw A2
    template is NaN or a number between 0 and 1/0.5343 + 0.26, and the
    blended curve never holds an infinity, for any proportion. *)
Theorem raw_templates_bounded W lm :
  Forall (in_range_or_nan 0 (1 / 0.674 + 0.26)) (sensitivity_A1 W lm) /\
  Forall (in_range_or_nan 0 (1 / 0.5343 + 0.26)) (sensitivity_A2 W lm) /\
  forall p, Forall fin_or_nan (total_sensitivity W lm p).
Proof.
  rewrite sensitivity_A1_pointwise, sensitivity_A2_pointwise.
  split; [|split].
  - apply Forall_map, Forall_forall. intros w _.
    apply sensitivity_A1_at_range.
  - apply Forall_map, Forall_forall. intros w _.
    apply sensitivity_A2_at_range.
  - intros p. apply total_sensitivity_class.
Qed.

(** ** Valid inputs *)

Lemma blend_positive l w q :
  0 <= q <= 100 ->
  0 < q / 100 * Spec.S1 l w + (1 - q / 100) * A2Real.S2 l w.
Proof.
  intros Hq. pose proof (S1_pos l w). pose proof (S2_pos l w).
  assert (0 <= q / 100 <= 1) by lra.
  destruct (Rle_dec (q / 100) (1 / 2)); nra.
Qed.

Lemma unit_values_of_max rs r :
  0 < r -> Forall (fun s => 0 < s <= r) rs ->
  Forall unit_value (map (fun s => Fin (s / r)) rs).
Proof.
  intros Hr H. apply Forall_map. eapply Forall_impl; [|exact H].
  intros s [Hs Hle]. simpl. split.
  - now apply Rdiv_lt_0_compat.
  - apply div_le_of_mul; lra.
Qed.

(** Normalising positive numbers. *)
Lemma normalize_positive_list rs :
  rs <> [] -> Forall (fun s => 0 < s) rs ->
  exists curve,
    normalize (map Fin rs) = Ok curve /\
    List.length curve = List.length rs /\
    np_max curve = Ok (Fin 1) /\
    Forall unit_value curve.
Proof.
  intros Hne Hpos.
  destruct (np_max_Fin_list rs Hne) as [r Hmax].
  destruct (np_max_sound _ _ Hmax) as [Hin Hle]; [discriminate|].
  apply in_map_iff in Hin. destruct Hin as (r' & E & Hin).
  injection E as ->.
  rewrite Forall_forall in Hpos. pose proof (Hpos _ Hin) as Hr.
  assert (Hall : Forall (fun s => 0 < s <= r) rs).
  { rewrite Forall_map in Hle. rewrite Forall_forall in *.
    intros s Hs. split; [now apply Hpos|]. exact (Hle _ Hs). }
  exists (map (fun s => Fin (s / r)) rs).
  split; [|split; [|split]].
  - apply normalize_Fin_list; try assumption.
    eapply Forall_impl; [|exact Hall]. now intros s [_ H].
  - apply length_map.
  - apply np_max_complete.
    + apply in_map_iff. exists r. split; [|assumption].
      f_equal. field. lra.
    + eapply Forall_impl; [|exact (unit_values_of_max rs r Hr Hall)].
      intros [s| | |]; simpl; tauto.
  - now apply unit_values_of_max.
Qed.

Lemma valid_call l q ws :
  Spec.beta_bandwidth_A1 l <> 0 -> 0 <= q <= 100 ->
  ws <> [] -> Forall (fun w => w <> 0) ws ->
  exists curve,
    govardovskii_template (map Fin ws) (Fin l) (Fin q)
      = Ok (map Fin ws, curve) /\
    List.length curve = List.length ws /\
    np_max curve = Ok (Fin 1) /\
    Forall unit_value curve.
Proof.
  intros Hbw Hq Hne Hws.
  rewrite govardovskii_template_normalized.
  rewrite total_sensitivity_Fin_list by assumption.
  destruct (normalize_positive_list
              (map (fun w => q / 100 * Spec.S1 l w
                             + (1 - q / 100) * A2Real.S2 l w) ws))
    as (curve & Hc & Hlen & Hmax & Hu).
  - destruct ws; [congruence|discriminate].
  - apply Forall_map, Forall_forall. intros w _. now apply blend_positive.
  - exists curve. unfold normalized_template. rewrite Hc.
    rewrite length_map in Hlen. auto.
Qed.



(** ** The A2 branch *)




(** ** The blend as a convex combination *)



(** ** NaN takes the whole curve *)













(** ** A negative maximum *)

Lemma fdiv_ge_one v m :
  m < 0 -> fin_or_nan v -> fle v (Fin m) ->
  exists r, (v / Fin m)%f64 = Fin r /\ 1 <= r.
Proof.
  intros Hm Hc Hle. destruct v as [u| | |]; simpl in *; try tauto.
  destruct (Req_dec_T m 0) as [E|_]; [lra|].
  eexists. split; [reflexivity|].
  apply Rmult_le_reg_r with (- m); [lra|].
  unfold Rdiv. replace (u * / m * - m) with (- u * (m * / m)) by ring.
  rewrite Rinv_r by lra. lra.
Qed.

(** X6.  Nothing keeps the divisor positive.  When the maximum of the
    blended curve is a negative number (possible only for a proportion
    outside 0-100), dividing by it reverses the order: the call returns a
    curve that contains 1.0 and all of whose values are numbers >= 1, so 1.0
    is its minimum. *)
Theorem negative_maximum_reverses_curve W lm p m :
  np_max (total_sensitivity W lm p) = Ok (Fin m) -> m < 0 ->
  exists curve,
    govardovskii_template W lm p = Ok (W, curve) /\
    In (Fin 1) curve /\
    Forall (fun v => exists r, v = Fin r /\ 1 <= r) curve.
Proof.
  intros Hmax Hm.
  destruct (np_max_sound _ _ Hmax) as [Hin Hle]; [discriminate|].
  exists (arr_div_s (total_sensitivity W lm p) (Fin m)).
  split; [now apply govardovskii_template_with_max|]. split.
  - unfold arr_div_s. apply in_map_iff. exists (Fin m).
    split; [apply fdiv_self; lra|assumption].
  - unfold arr_div_s. apply Forall_map.
    pose proof (total_sensitivity_class W lm p) as Hc.
    rewrite Forall_forall in *. intros v Hv.
    now apply fdiv_ge_one; auto.
Qed.

Lemma negative_maximum_reverses_curve_witness :
  exists curve,
    govardovskii_template [Fin 400] 500 400 = Ok ([Fin 400], curve) /\
    In (Fin 1) curve /\
    Forall (fun v => exists r, v = Fin r /\ 1 <= r) curve.
Proof.
  apply (negative_maximum_reverses_curve [Fin 400] 500 400
           (400 / 100 * Spec.S1 500 400
            + (1 - 400 / 100) * A2Real.S2 500 400)).
  - change [Fin 400] with (map Fin [400]).
    rewrite total_sensitivity_Fin_list; [reflexivity|forall_lra|].
    unfold Spec.beta_bandwidth_A1. lra.
  - pose proof S1_500_at_400. pose proof S2_500_at_400. lra.
Defined.

(** ** A wavelength of zero *)






(** ** The sample grid of the renderer *)

Lemma removelast_map {A B : Type} (f : A -> B) (l : list A) :
  removelast (map f l) = map f (removelast l).
Proof.
  induction l as [|a l IH]; [reflexivity|].
  destruct l as [|b l]; [reflexivity|].
  cbn [map removelast] in *. now rewrite IH.
Qed.

Lemma removelast_length_app {A : Type} (l : list A) (z : A) :
  l <> [] -> List.length (removelast l ++ [z]) = List.length l.
Proof.
  intros Hl. destruct (exists_last Hl) as (l' & a & ->).
  rewrite removelast_last, !length_app. reflexivity.
Qed.

Lemma Forall_removelast {A : Type} (P : A -> Prop) (l : list A) :
  Forall P l -> Forall P (removelast l).
Proof.
  induction l as [|a l IH]; intros H; [constructor|].
  inversion H; subst. destruct l as [|b l]; [constructor|].
  constructor; [assumption|]. now apply IH.
Qed.

(** On a finite range [a <= b] with at least two samples the grid holds
    [num] numbers, all within the range, and ends on [b]. *)
Lemma np_linspace_finite a b num :
  (2 <= num)%nat -> a <= b ->
  exists rs,
    np_linspace (Fin a) (Fin b) num = map Fin (rs ++ [b]) /\
    List.length (rs ++ [b]) = num /\
    Forall (fun r => a <= r <= b) (rs ++ [b]).
Proof.
  intros Hnum Hab.
  set (d := INR (num - 1)).
  assert (Hd : 0 < d) by (apply lt_0_INR; lia).
  assert (Hi : forall i, In i (seq 0 num) -> 0 <= INR i <= d).
  { intros i Hin. apply in_seq in Hin. split; [apply pos_INR|].
    apply le_INR. lia. }
  set (g := fun i : nat =>
              if Req_dec_T ((b + - a) / d) 0
              then (b + - a) * (INR i / d) + a
              else (b + - a) / d * INR i + a).
  assert (E : np_linspace (Fin a) (Fin b) num
              = removelast (map Fin (map g (seq 0 num))) ++ [Fin b]).
  { unfold np_linspace. fold d. cbn [fsub fneg fadd].
    rewrite fdiv_Fin by lra. f_equal. f_equal.
    unfold g. destruct (Req_dec_T ((b + - a) / d) 0) as [Z|Z];
      unfold arr_add_s, s_mul_arr, arr_div_s; rewrite !map_map;
      apply map_ext; intros i.
    - rewrite fdiv_Fin by lra. reflexivity.
    - reflexivity. }
  assert (Hg : Forall (fun r => a <= r <= b) (map g (seq 0 num))).
  { apply Forall_map, Forall_forall. intros i Hin.
    specialize (Hi i Hin). unfold g.
    assert (0 <= INR i / d <= 1).
    { split; [apply Rmult_le_pos; [lra|left; now apply Rinv_0_lt_compat]|].
      apply div_le_of_mul; lra. }
    destruct (Req_dec_T ((b + - a) / d) 0) as [Z|Z].
    - nra.
    - replace ((b + - a) / d * INR i) with ((b + - a) * (INR i / d))
        by (field; lra).
      nra. }
  exists (removelast (map g (seq 0 num))).
  split; [|split].
  - rewrite E, removelast_map, map_app. reflexivity.
  - rewrite removelast_length_app.
    + now rewrite length_map, length_seq.
    + destruct num; [lia|discriminate].
  - apply Forall_app. split; [now apply Forall_removelast|].
    constructor; [lra|constructor].
Qed.

(** ** What the renderer leaves on the canvas *)

Lemma plot_visual_pigments_state range lms A1s t plt :
  plot_visual_pigments range lms A1s t plt =
  (Ok tt,
   mk_figure (10, 6)
     (map (drawn_line (np_linspace (fst range) (snd range) 1000))
          (combine lms
             (match A1s with
              | None => repeat (Fin 100) (List.length lms)
              | Some l => l
              end)))
     "Wavelength (nm)" "Normalized Sensitivity" (title_or_default t)
     (Some 0.3) true (Some (0, 1.1))
   :: plt).
Proof.
  unfold plot_visual_pigments, plt_figure.
  rewrite plot_loop_draws by apply np_linspace_nonempty.
  reflexivity.
Qed.


(** ** Curves drawn for valid pigments *)

(** What a well-formed plotted line looks like on the grid [W]. *)
Lemma drawn_line_valid lo hi pair :
  0 < lo <= hi -> valid_pigment pair ->
  let ln := drawn_line (np_linspace (Fin lo) (Fin hi) 1000) pair in
  xdata ln = np_linspace (Fin lo) (Fin hi) 1000 /\
  List.length (xdata ln) = 1000%nat /\
  Forall (fun v => exists r, v = Fin r /\ lo <= r <= hi) (xdata ln) /\
  List.length (ydata ln) = 1000%nat /\
  np_max (ydata ln) = Ok (Fin 1) /\
  Forall unit_value (ydata ln) /\
  line_label ln = mk_label (fst pair) (snd pair).
Proof.
  intros Hr Hv.
  destruct (np_linspace_finite lo hi 1000) as (rs & E & Hlen & Hin);
    [lia|lra|].
  destruct pair as [[l| | |] [q| | |]]; simpl in Hv; try tauto.
  destruct Hv as [Hbw Hq].
  destruct (valid_call l q (rs ++ [hi]) Hbw Hq) as (curve & Hc & Hl & Hm & Hu).
  - intros F. apply app_eq_nil in F. destruct F as [_ F]. discriminate F.
  - eapply Forall_impl; [|exact Hin]. intros r Hrr. simpl in Hrr. lra.
  - unfold drawn_line. rewrite E, Hc. cbn [xdata ydata line_label fst snd].
    repeat split; try assumption.
    + now rewrite length_map.
    + apply Forall_map. eapply Forall_impl; [|exact Hin].
      intros r Hrr. now exists r.
    + now rewrite Hl.
Qed.

Lemma drawn_lines_valid lo hi pairs :
  0 < lo <= hi -> Forall valid_pigment pairs ->
  Forall (fun ln =>
            xdata ln = np_linspace (Fin lo) (Fin hi) 1000 /\
            List.length (xdata ln) = 1000%nat /\
            Forall (fun v => exists r, v = Fin r /\ lo <= r <= hi)
                   (xdata ln) /\
            List.length (ydata ln) = 1000%nat /\
            np_max (ydata ln) = Ok (Fin 1) /\
            Forall unit_value (ydata ln))
         (map (drawn_line (np_linspace (Fin lo) (Fin hi) 1000)) pairs).
Proof.
  intros Hr Hv. apply Forall_map. eapply Forall_impl; [|exact Hv].
  intros pair Hp. pose proof (drawn_line_valid lo hi pair Hr Hp) as H.
  cbv zeta in H. destruct H as (H1 & H2 & H3 & H4 & H5 & H6 & _).
  repeat split; assumption.
Qed.

Lemma drawn_lines_labels W pairs :
  map line_label (map (drawn_line W) pairs)
  = map (fun pair => mk_label (fst pair) (snd pair)) pairs.
Proof.
  rewrite map_map. apply map_ext. intros pair. apply drawn_line_label.
Qed.


Lemma valid_pigment_Fin l q :
  Spec.beta_bandwidth_A1 l <> 0 -> 0 <= q <= 100 -> valid_pigment (Fin l, Fin q).
Proof. intros. simpl. auto. Qed.


(** ** The example run *)

(** X10.  The script's own run opens one figure titled 'Govardovskii
    Template: A1/A2 Chromophore Mixing' with nine curves, labelled
    (400,100), (400,50), (400,0), (525,100), ... (650,0) in this order; each
    has 1000 values, all numbers in (0, 1], with maximum exactly 1. *)
Theorem main_draws_nine_curves plt :
  exists fig,
    main plt = (Ok tt, fig :: plt) /\
    title fig = "Govardovskii Template: A1/A2 Chromophore Mixing"%string /\
    map line_label (lines fig) =
      [mk_label 400 100; mk_label 400 50; mk_label 400 0;
       mk_label 525 100; mk_label 525 50; mk_label 525 0;
       mk_label 650 100; mk_label 650 50; mk_label 650 0] /\
    Forall (fun ln =>
              List.length (ydata ln) = 1000%nat /\
              np_max (ydata ln) = Ok (Fin 1) /\
              Forall unit_value (ydata ln))
           (lines fig).
Proof.
  unfold main. eexists. split; [apply plot_visual_pigments_state|].
  cbn [title lines fst snd title_or_default]. split; [reflexivity|]. split.
  - rewrite drawn_lines_labels. reflexivity.
  - eapply Forall_impl; [|apply drawn_lines_valid].
    + intros ln (_ & _ & _ & H4 & H5 & H6). auto.
    + lra.
    + cbn [combine].
      repeat (apply Forall_cons;
              [apply valid_pigment_Fin;
               [unfold Spec.beta_bandwidth_A1; lra|lra]|]).
      apply Forall_nil.
Qed.

(** ** The order of the samples *)










